(** * duplicateFileDetector: a shallow embedding of [duplicate_file_detector.py]

    The module walks a directory tree, hashes every file with SHA-256,
    groups the paths by digest, estimates the space that removing the
    extra copies would free, and writes the groups to a CSV report.

    The Python functions are embedded as Rocq functions of the same names.
    Code that touches the operating system runs in a small state and error
    monad over a model of the file system; [format_size] is pure. *)

From Equations Require Import Equations.
From Equations.Prop Require Import Logic.
From Stdlib Require Import ZArith NArith QArith Qabs.
From Stdlib Require Import List Bool Ascii String DecimalString.
From Stdlib.Strings Require Import Byte.
From Stdlib Require Import Permutation Lia Lqa.
Import ListNotations.

Local Close Scope Q_scope.
Local Open Scope string_scope.

(** ** Exceptions and results *)

(** The exceptions the modelled calls can raise. *)
Inductive exn : Type :=
| FileNotFoundError
| NotADirectoryError
| IsADirectoryError
| PermissionError
| OSError
| EOFError
| OverflowError.

(** What a call produces: a value, or a raised exception. *)
Inductive result (A : Type) : Type :=
| Ok (a : A)
| Raise (e : exn).

Arguments Ok {A} a.
Arguments Raise {A} e.

(** ** [format_size]

    [bytes] starts as a Python [int] and becomes a [float] at the first
    [bytes /= 1024].  The running value is modelled by an exact rational.
    This is what binary64 computes wherever a string is produced: a string
    is only produced for [bytes < 1024^5 < 2^53], every integer below
    [2^53] is a binary64 number, and dividing one by a power of two is
    exact.  From [2^53] on the quotients are rounded, but rounding is
    monotone and fixes the powers of two, so each test [bytes < 1024] has
    the same outcome as on the exact value. *)

Module Fmt.

Local Open Scope Z_scope.

(** [x] rounded to the nearest integer, ties to the even one. *)
Definition round_half_even (x : Q) : Z :=
  let n := Qnum x in
  let d := Zpos (Qden x) in
  let fl := n / d in
  let r := n mod d in
  match 2 * r ?= d with
  | Lt => fl
  | Gt => fl + 1
  | Eq => if Z.even fl then fl else fl + 1
  end.

Definition digit (d : Z) : string :=
  String (ascii_of_N (48 + Z.to_N d)) EmptyString.

Definition decimal (n : Z) : string :=
  NilZero.string_of_uint (N.to_uint (Z.to_N n)).

(** The format specification [.2f]: fixed point, two digits after the
    point, the value correctly rounded. *)
Definition format_2f (x : Q) : string :=
  let h := round_half_even (Qabs x * 100) in
  (if Qnum x <? 0 then "-" else "")
    ++ decimal (h / 100) ++ "." ++ digit (h mod 100 / 10) ++ digit (h mod 10).

End Fmt.

(** The least quotient that no longer fits a float: halfway between the
    largest binary64 number and [2^1024]. *)
Definition float_overflow : Q := inject_Z (2 ^ 1024 - 2 ^ 970)%Z.

(** [x / 1024] as Python evaluates it; an [int] too large for the
    quotient to be a float raises [OverflowError]. *)
Definition true_divide_1024 (x : Q) : result Q :=
  let q := (x / inject_Z 1024)%Q in
  if Qle_bool float_overflow q then Raise OverflowError else Ok q.

Definition units : list string := ["B"; "KB"; "MB"; "GB"; "TB"].

(** The [for unit in [...]] loop.  Running off the end of the list leaves
    the function without a [return]: the call evaluates to [None]. *)
Fixpoint format_size_loop (us : list string) (bytes : Q) : result (option string) :=
  match us with
  | [] => Ok None
  | unit :: rest =>
      if negb (Qle_bool (inject_Z 1024) bytes)
      then Ok (Some (Fmt.format_2f bytes ++ " " ++ unit))
      else
        match true_divide_1024 bytes with
        | Raise e => Raise e
        | Ok bytes' => format_size_loop rest bytes'
        end
  end.

(** [format_size(bytes)] for a byte count. *)
Definition format_size (bytes : N) : result (option string) :=
  format_size_loop units (inject_Z (Z.of_N bytes)).

(** ** Paths

    A path is a string; its components are separated by [/]. *)

Definition slash : ascii := "/"%char.

(** [os.path.join(a, b)] on a POSIX system. *)
Definition ends_with_slash (a : string) : bool :=
  match get (String.length a - 1) a with
  | Some c => Ascii.eqb c slash
  | None => false
  end.

Definition path_join (a b : string) : string :=
  if prefix "/" b then b
  else if (a =? "") || ends_with_slash a then a ++ b
  else a ++ "/" ++ b.

(** The pieces of [s] between slashes. *)
Fixpoint split_slash (s : string) : list string :=
  match s with
  | EmptyString => [""]
  | String c s' =>
      if Ascii.eqb c slash then "" :: split_slash s'
      else match split_slash s' with
           | x :: xs => String c x :: xs
           | [] => [String c ""]
           end
  end.

(** The names a path goes through; empty pieces and [.] name nothing.
    Paths are taken from the root of the tree, and [..] is not interpreted. *)
Definition components (p : string) : list string :=
  filter (fun c => negb ((c =? "") || (c =? "."))) (split_slash p).

(** ** The file system

    A tree of directories and regular files, rooted at the directory in
    which the program runs (other kinds of entries, symbolic links among
    them, are outside the model).  A directory lists its entries in the
    order [os.scandir] reports them. *)

(** A regular file: its bytes, and when reading it goes wrong.
    [f_fault = Some 0]: [open] fails; [f_fault = Some (S k)]: the read
    call number [k] (from 0) fails; [None]: nothing fails. *)
Record file : Type := mkFile {
  f_data : list byte;
  f_fault : option nat
}.

#[local] Set Warnings "-register-all".

Inductive node : Type :=
| File (f : file)
| Dir (size : N) (listable : bool) (entries : list (string * node)).

Fixpoint assoc {A : Type} (name : string) (entries : list (string * A)) : option A :=
  match entries with
  | [] => None
  | (n, a) :: rest => if n =? name then Some a else assoc name rest
  end.

Fixpoint lookup (n : node) (cs : list string) : option node :=
  match cs with
  | [] => Some n
  | c :: cs' =>
      match n with
      | File _ => None
      | Dir _ _ entries =>
          match assoc c entries with
          | Some child => lookup child cs'
          | None => None
          end
      end
  end.

(** The node a path names; the empty path names nothing. *)
Definition resolve (root : node) (p : string) : option node :=
  if p =? "" then None else lookup root (components p).

Definition is_dir (n : node) : bool :=
  match n with Dir _ _ _ => true | File _ => false end.

(** [os.path.isdir(p)]: false for whatever does not exist. *)
Definition isdir (root : node) (p : string) : bool :=
  match resolve root p with
  | Some n => is_dir n
  | None => false
  end.

(** [os.stat(p).st_size]. *)
Definition getsize (root : node) (p : string) : result N :=
  match resolve root p with
  | Some (File f) => Ok (N.of_nat (List.length (f_data f)))
  | Some (Dir size _ _) => Ok size
  | None => Raise FileNotFoundError
  end.

(** [os.scandir(p)], split the way [os.walk] splits it: the names of
    the subdirectories and the names of everything else. *)
Definition dirnames (entries : list (string * node)) : list string :=
  map fst (filter (fun e => is_dir (snd e)) entries).

Definition filenames (entries : list (string * node)) : list string :=
  map fst (filter (fun e => negb (is_dir (snd e))) entries).

(** [os.walk(top)], top down.  Its default [onerror=None] ignores a
    failing [scandir]: what cannot be listed yields nothing. *)
Fixpoint walk_node (top : string) (n : node) : list (string * list string * list string) :=
  match n with
  | File _ => []
  | Dir _ false _ => []
  | Dir _ true entries =>
      (top, dirnames entries, filenames entries)
        :: flat_map (fun e =>
                       match snd e with
                       | Dir _ _ _ => walk_node (path_join top (fst e)) (snd e)
                       | File _ => []
                       end) entries
  end.

Definition walk (root : node) (top : string) : list (string * list string * list string) :=
  match resolve root top with
  | Some n => walk_node top n
  | None => []
  end.

(** The entry [name] of a directory, replaced by [n]. *)
Fixpoint replace_entry (name : string) (n : node) (entries : list (string * node))
  : list (string * node) :=
  match entries with
  | [] => []
  | (m, old) :: rest =>
      if String.eqb m name then (m, n) :: rest
      else (m, old) :: replace_entry name n rest
  end.

(** [open(p, 'w')] followed by writing [f]: the file the path names is
    created, or replaced whole when there is one already. *)
Fixpoint store (n : node) (cs : list string) (f : file) : result node :=
  match cs with
  | [] =>
      match n with
      | File _ => Ok (File f)
      | Dir _ _ _ => Raise IsADirectoryError
      end
  | c :: cs' =>
      match n with
      | File _ => Raise NotADirectoryError
      | Dir size listable entries =>
          match assoc c entries with
          | Some child =>
              match store child cs' f with
              | Ok child' => Ok (Dir size listable (replace_entry c child' entries))
              | Raise e => Raise e
              end
          | None =>
              match cs' with
              | [] => Ok (Dir size listable (entries ++ [(c, File f)]))
              | _ :: _ => Raise FileNotFoundError
              end
          end
      end
  end.

Definition write_file (root : node) (p : string) (data : list byte) : result node :=
  if String.eqb p "" then Raise FileNotFoundError
  else store root (components p) (mkFile data None).

(** An open binary file: the bytes not read yet, and how many more read
    calls succeed ([None]: all of them). *)
Record reader : Type := mkReader {
  r_rest : list byte;
  r_fault : option nat
}.

(** [open(p, 'rb')]. *)
Definition open_file (root : node) (p : string) : result reader :=
  match resolve root p with
  | Some (File f) =>
      match f_fault f with
      | Some O => Raise PermissionError
      | Some (S k) => Ok (mkReader (f_data f) (Some k))
      | None => Ok (mkReader (f_data f) None)
      end
  | Some (Dir _ _ _) => Raise IsADirectoryError
  | None => Raise FileNotFoundError
  end.

(** [f.read(n)]: up to [n] bytes, everything left when [n] is negative;
    the empty chunk at the end of the file. *)
Definition read (f : reader) (n : Z) : result (list byte * reader) :=
  match r_fault f with
  | Some O => Raise OSError
  | fault =>
      let k := if (n <? 0)%Z then List.length (r_rest f) else Z.to_nat n in
      Ok (firstn k (r_rest f), mkReader (skipn k (r_rest f)) (option_map pred fault))
  end.

(** ** The world, and programs that run in it *)

Inductive event : Type :=
| EvInput (prompt : string)
| EvPrint (text : string)
| EvIsdir (path : string)
| EvWalk (top : string)
| EvOpenRead (path : string)
| EvOpenWrite (path : string)
| EvGetsize (path : string).

(** The file system, the lines waiting on standard input, and what the
    program has done so far, oldest first. *)
Record world : Type := mkWorld {
  fs : node;
  stdin : list string;
  log : list event
}.

Definition M (A : Type) : Type := world -> result A * world.

Definition ret {A : Type} (a : A) : M A := fun w => (Ok a, w).

Definition bind {A B : Type} (c : M A) (k : A -> M B) : M B :=
  fun w =>
    match c w with
    | (Ok a, w') => k a w'
    | (Raise e, w') => (Raise e, w')
    end.

Notation "x <- c ;; k" := (bind c (fun x => k))
  (at level 61, c at next level, right associativity).
Notation "c ;;; k" := (bind c (fun _ => k))
  (at level 61, right associativity).

(** [try: body except Exception as e: handler]. *)
Definition try_except {A : Type} (body : M A) (handler : exn -> M A) : M A :=
  fun w =>
    match body w with
    | (Ok a, w') => (Ok a, w')
    | (Raise e, w') => handler e w'
    end.

Definition lift {A : Type} (r : result A) : M A := fun w => (r, w).

Definition emit (e : event) : M unit :=
  fun w => (Ok tt, mkWorld (fs w) (stdin w) (log w ++ [e])).

(** [for x in l: s = body(x, s)]. *)
Fixpoint for_each {A S : Type} (l : list A) (body : A -> S -> M S) (s : S) : M S :=
  match l with
  | [] => ret s
  | x :: l' => s' <- body x s ;; for_each l' body s'
  end.

Definition print (text : string) : M unit := emit (EvPrint text).

Definition input (prompt : string) : M string :=
  emit (EvInput prompt) ;;;
  fun w =>
    match stdin w with
    | [] => (Raise EOFError, w)
    | line :: rest => (Ok line, mkWorld (fs w) rest (log w))
    end.

Definition os_path_isdir (p : string) : M bool :=
  emit (EvIsdir p) ;;; fun w => (Ok (isdir (fs w) p), w).

Definition os_walk (top : string) : M (list (string * list string * list string)) :=
  emit (EvWalk top) ;;; fun w => (Ok (walk (fs w) top), w).

Definition os_path_getsize (p : string) : M N :=
  emit (EvGetsize p) ;;; fun w => (getsize (fs w) p, w).

Definition open_rb (p : string) : M reader :=
  emit (EvOpenRead p) ;;; fun w => (open_file (fs w) p, w).

(** ** Reading a file to its end *)

(** [while chunk := f.read(block_size): sha256.update(chunk)], on a hash
    object that is the bytes fed to it so far. *)
Equations? read_chunks (f : reader) (block_size : Z) (fed : list byte)
  : result (list byte) by wf (List.length (r_rest f)) lt :=
  read_chunks f block_size fed with inspect (read f block_size) := {
    | exist _ (Raise e) _ := Raise e;
    | exist _ (Ok ([], _)) _ := Ok fed;
    | exist _ (Ok (c :: cs, f')) E :=
        read_chunks f' block_size (fed ++ c :: cs) }.
Proof.
  clear read_chunks. unfold read in E.
  destruct (r_fault f) as [[|k]|]; try discriminate;
    inversion E as [[H1 H2]]; cbn;
    rewrite length_skipn;
    (destruct (r_rest f) as [|b bs]; [rewrite firstn_nil in H1; discriminate|]);
    (destruct (if (block_size <? 0)%Z then _ else _) as [|k'];
     [discriminate|cbn; lia]).
Qed.

(** ** Text

    A Python [str] is held as the bytes of its UTF-8 encoding. *)

Definition newline : string := String (ascii_of_nat 10) "".

(** [str(n)] for an [int]. *)
Definition str_int (n : Z) : string :=
  ((if n <? 0 then "-" else "") ++ Fmt.decimal (Z.abs n))%Z.

(** [str(x)] for what [format_size] returns. *)
Definition str_size (x : option string) : string :=
  match x with
  | Some s => s
  | None => "None"
  end.

(** The text of an exception (CPython appends the file name to some). *)
Definition str_exn (e : exn) : string :=
  match e with
  | FileNotFoundError => "[Errno 2] No such file or directory"
  | NotADirectoryError => "[Errno 20] Not a directory"
  | IsADirectoryError => "[Errno 21] Is a directory"
  | PermissionError => "[Errno 13] Permission denied"
  | OSError => "[Errno 5] Input/output error"
  | EOFError => "EOF when reading a line"
  | OverflowError => "integer division result too large for a float"
  end.

(** [str.strip()]: the ASCII white space at both ends goes. *)
Definition is_space (c : ascii) : bool :=
  let n := nat_of_ascii c in
  (((9 <=? n) && (n <=? 13)) || ((28 <=? n) && (n <=? 32)))%nat.

Fixpoint lstrip (s : string) : string :=
  match s with
  | EmptyString => ""
  | String c s' => if is_space c then lstrip s' else s
  end.

Fixpoint rstrip (s : string) : string :=
  match s with
  | EmptyString => ""
  | String c s' =>
      match rstrip s' with
      | EmptyString => if is_space c then "" else String c ""
      | t => String c t
      end
  end.

Definition strip (s : string) : string := rstrip (lstrip s).

(** ** [csv.writer], in its default dialect

    Fields are separated by commas, rows end in CR LF, and a field is
    quoted when it holds a comma, a quote, a CR or an LF. *)

Module Csv.

Definition quotechar : ascii := ascii_of_nat 34.
Definition lineterminator : string :=
  String (ascii_of_nat 13) (String (ascii_of_nat 10) "").

Definition special (c : ascii) : bool :=
  Ascii.eqb c ","%char || Ascii.eqb c quotechar
  || Ascii.eqb c (ascii_of_nat 13) || Ascii.eqb c (ascii_of_nat 10).

Fixpoint has_special (s : string) : bool :=
  match s with
  | EmptyString => false
  | String c s' => special c || has_special s'
  end.

Fixpoint double_quotes (s : string) : string :=
  match s with
  | EmptyString => ""
  | String c s' =>
      if Ascii.eqb c quotechar then String c (String c (double_quotes s'))
      else String c (double_quotes s')
  end.

Definition field (s : string) : string :=
  if has_special s
  then String quotechar (double_quotes s ++ String quotechar "")
  else s.

(** One row of the file; a row that is one empty field is written quoted. *)
Definition row (fields : list string) : string :=
  match fields with
  | [EmptyString] => String quotechar (String quotechar lineterminator)
  | _ => concat "," (map field fields) ++ lineterminator
  end.

End Csv.

(** A text file open for writing: its path and what was written to it. *)
Record writer : Type := mkWriter {
  w_path : string;
  w_text : string
}.

(** [open(p, mode='w', newline='', encoding='utf-8')]: the file is
    created or emptied.  Strings are held as UTF-8 already, and
    [newline=''] writes line ends as they are. *)
Definition open_w (p : string) : M writer :=
  emit (EvOpenWrite p) ;;;
  fun w =>
    match write_file (fs w) p [] with
    | Ok root' => (Ok (mkWriter p ""), mkWorld root' (stdin w) (log w))
    | Raise e => (Raise e, w)
    end.

Definition writerow (f : writer) (fields : list string) : writer :=
  mkWriter (w_path f) (w_text f ++ Csv.row fields).

(** Leaving the [with] block closes the file: what was written reaches
    the file system. *)
Definition close (f : writer) : M unit :=
  fun w =>
    match write_file (fs w) (w_path f) (list_byte_of_string (w_text f)) with
    | Ok root' => (Ok tt, mkWorld root' (stdin w) (log w))
    | Raise e => (Raise e, w)
    end.

(** ** Dictionaries

    A [dict] keeps its keys in the order they were first inserted, so it
    is a list of keys and values, each key once. *)

Definition dict : Type := list (string * list string).

(** [d[k].append(v)] on a [defaultdict(list)]. *)
Fixpoint dict_append (d : dict) (k v : string) : dict :=
  match d with
  | [] => [(k, [v])]
  | (k', vs) :: d' =>
      if String.eqb k' k then (k', (vs ++ [v])%list) :: d'
      else (k', vs) :: dict_append d' k v
  end.

Definition values (d : dict) : list (list string) := map snd d.

(** ** The detector *)

Definition default_block_size : Z := 65536.

Section Detector.

(** [hashlib.sha256]: the digest of a message, a number of 256 bits. *)
Variable sha256 : list byte -> N.

Definition hex_digit (n : N) : ascii :=
  match get (N.to_nat n) "0123456789abcdef" with
  | Some c => c
  | None => "0"%char
  end.

(** The lowest [digits] hexadecimal digits of [n], highest first. *)
Fixpoint hex (digits : nat) (n : N) : string :=
  match digits with
  | O => ""
  | S d => hex d (n / 16) ++ String (hex_digit (n mod 16)) ""
  end.

(** [h.hexdigest()] for a hash object fed the bytes [fed]. *)
Definition hexdigest (fed : list byte) : string := hex 64 (sha256 fed).

Definition compute_file_hash (path : string) (block_size : Z) : M (option string) :=
  let sha256 := [] in
  try_except
    (f <- open_rb path ;;
     sha256 <- lift (read_chunks f block_size sha256) ;;
     ret (Some (hexdigest sha256)))
    (fun e =>
       print ("Error al leer " ++ path ++ ": " ++ str_exn e) ;;;
       ret None).

(** [if file_hash:] holds for a string that is not empty. *)
Definition truthy (file_hash : option string) : bool :=
  match file_hash with
  | Some s => negb (String.eqb s "")
  | None => false
  end.

Definition find_duplicate_files (base_directory : string) : M dict :=
  entries <- os_walk base_directory ;;
  acc <- for_each entries
    (fun '(dirpath, _, filenames) acc =>
       for_each filenames
         (fun filename '(hash_to_files, total_files) =>
            let full_path := path_join dirpath filename in
            file_hash <- compute_file_hash full_path default_block_size ;;
            match file_hash with
            | Some h =>
                if truthy file_hash
                then ret (dict_append hash_to_files h full_path, (total_files + 1)%Z)
                else ret (hash_to_files, total_files)
            | None => ret (hash_to_files, total_files)
            end)
         acc)
    ([], 0%Z) ;;
  let hash_to_files := fst acc in
  ret (filter (fun '(h, paths) => (1 <? List.length paths)%nat) hash_to_files).

Definition calculate_reclaimable_space (duplicates : dict) : M N :=
  for_each (values duplicates)
    (fun paths space =>
       for_each (tl paths)
         (fun path space =>
            try_except
              (size <- os_path_getsize path ;; ret (space + size)%N)
              (fun e =>
                 print ("Error al obtener tamaño de " ++ path ++ ": " ++ str_exn e) ;;;
                 ret space))
         space)
    0%N.

Definition save_results_to_csv (duplicates : dict) (filename : string) : M unit :=
  f <- open_w filename ;;
  let writer := writerow f ["Hash"; "Ruta de archivo duplicado"] in
  let writer :=
    fold_left
      (fun writer '(hash_val, paths) =>
         fold_left (fun writer path => writerow writer [hash_val; path]) paths writer)
      duplicates writer in
  close writer.

Definition default_filename : string := "duplicados.csv".

Definition main : M unit :=
  line <- input "Introduce el directorio a analizar: " ;;
  let directory := strip line in
  valid <- os_path_isdir directory ;;
  if negb valid then print "Ruta no válida."
  else
    print "Analizando archivos..." ;;;
    duplicates <- find_duplicate_files directory ;;
    let total_duplicates :=
      fold_right Z.add 0%Z
        (map (fun paths => (Z.of_nat (List.length paths) - 1)%Z) (values duplicates)) in
    reclaimable_space <- calculate_reclaimable_space duplicates ;;
    save_results_to_csv duplicates default_filename ;;;
    print (newline ++ "✅ Análisis completado.") ;;;
    print ("Ficheros duplicados encontrados: " ++ str_int total_duplicates) ;;;
    size <- lift (format_size reclaimable_space) ;;
    print ("Espacio potencialmente liberable: " ++ str_size size) ;;;
    print "Resultado exportado a 'duplicados.csv'.".

End Detector.

(** ** SHA-256

    The hash function of FIPS 180-4, on byte strings, with 32-bit words
    held as numbers below [2^32].  The detector above takes the hash
    function as a parameter; this is the one [hashlib.sha256] computes. *)

Module SHA256.

Local Open Scope N_scope.

Definition mask32 : N := 2 ^ 32 - 1.

Definition add32 (x y : N) : N := (x + y) mod 2 ^ 32.

Definition rotr (n x : N) : N :=
  N.lor (N.shiftr x n) (N.land (N.shiftl x (32 - n)) mask32).

Definition Ch (x y z : N) : N :=
  N.lxor (N.land x y) (N.land (N.lxor x mask32) z).

Definition Maj (x y z : N) : N :=
  N.lxor (N.lxor (N.land x y) (N.land x z)) (N.land y z).

Definition Sigma0 (x : N) : N := N.lxor (N.lxor (rotr 2 x) (rotr 13 x)) (rotr 22 x).
Definition Sigma1 (x : N) : N := N.lxor (N.lxor (rotr 6 x) (rotr 11 x)) (rotr 25 x).
Definition sigma0 (x : N) : N := N.lxor (N.lxor (rotr 7 x) (rotr 18 x)) (N.shiftr x 3).
Definition sigma1 (x : N) : N := N.lxor (N.lxor (rotr 17 x) (rotr 19 x)) (N.shiftr x 10).

(** The constants are the first 32 bits of the fractional parts of the
    square roots (initial hash value) and cube roots (round constants) of
    the first primes. *)
Definition is_prime (n : N) : bool :=
  (1 <? n)
  && forallb (fun d => negb (n mod N.of_nat d =? 0)) (seq 2 (N.to_nat n - 2)).

Definition primes : list N :=
  firstn 64 (filter is_prime (map N.of_nat (seq 2 310))).

(** The largest [r] below [2^bits] above [r0] with [r ^ k <= x]. *)
Fixpoint root (k : N) (bits : nat) (x r : N) : N :=
  match bits with
  | O => r
  | S b =>
      let r' := r + 2 ^ N.of_nat b in
      root k b x (if r' ^ k <=? x then r' else r)
  end.

Definition fraction_of_root (k p : N) : N :=
  root k 40 (p * 2 ^ (32 * k)) 0 mod 2 ^ 32.

Definition K : list N := Eval vm_compute in map (fraction_of_root 3) primes.

Definition H0 : list N := Eval vm_compute in map (fraction_of_root 2) (firstn 8 primes).

(** The message, a one bit, zeros up to 56 bytes modulo 64, and the
    length of the message in bits on 8 bytes. *)
Definition big_endian (width : nat) (n : N) : list byte :=
  map (fun i => match Byte.of_N (N.shiftr n (8 * N.of_nat i) mod 256) with
                | Some b => b
                | None => x00
                end)
    (rev (seq 0 width)).

Definition pad (msg : list byte) : list byte :=
  let len := List.length msg in
  let zeros := ((64 - (len + 9) mod 64) mod 64)%nat in
  (msg ++ [x80] ++ repeat x00 zeros ++ big_endian 8 (8 * N.of_nat len))%list.

Fixpoint words (bs : list byte) : list N :=
  match bs with
  | a :: b :: c :: d :: rest =>
      (Byte.to_N a * 2 ^ 24 + Byte.to_N b * 2 ^ 16 + Byte.to_N c * 2 ^ 8 + Byte.to_N d)
        :: words rest
  | _ => []
  end.

(** The message schedule, latest word first while it is built. *)
Fixpoint extend (n : nat) (ws : list N) : list N :=
  match n with
  | O => ws
  | S n' =>
      let w := add32 (add32 (sigma1 (nth 1 ws 0)) (nth 6 ws 0))
                     (add32 (sigma0 (nth 14 ws 0)) (nth 15 ws 0)) in
      extend n' (w :: ws)
  end.

Definition schedule (block : list N) : list N := rev (extend 48 (rev block)).

Definition round (s : list N) (kw : N * N) : list N :=
  match s with
  | [a; b; c; d; e; f; g; h] =>
      let t1 := add32 (add32 (add32 h (Sigma1 e)) (add32 (Ch e f g) (fst kw))) (snd kw) in
      let t2 := add32 (Sigma0 a) (Maj a b c) in
      [add32 t1 t2; a; b; c; add32 d t1; e; f; g]
  | _ => s
  end.

Definition compress (h : list N) (block : list N) : list N :=
  map (fun xy => add32 (fst xy) (snd xy))
    (combine h (fold_left round (combine K (schedule block)) h)).

Fixpoint blocks (n : nat) (ws : list N) (h : list N) : list N :=
  match n with
  | O => h
  | S n' => blocks n' (skipn 16 ws) (compress h (firstn 16 ws))
  end.

Definition sha256 (msg : list byte) : N :=
  let ws := words (pad msg) in
  fold_left (fun acc h => acc * 2 ^ 32 + h) (blocks (List.length ws / 16) ws H0) 0.

End SHA256.

(** ** The window of [duplicate_detector_gui.py]

    The methods of [DuplicateDetectorGUI] are embedded as functions that
    take the object and return it: what they read and set of it is the
    text of the path entry and of the status label, the error dialogs they
    show, and the threads they start.  A started thread is recorded with
    its argument; its run is the method [analyze_duplicates], below. *)

Record gui : Type := mkGui {
  path_var : string;
  status_label : string;
  errors_shown : list (string * string);
  threads_started : list string
}.

(** [self.status_label.config(text=...)]. *)
Definition config_status (self : gui) (text : string) : gui :=
  mkGui (path_var self) text (errors_shown self) (threads_started self).

(** [messagebox.showerror(title, message)]. *)
Definition showerror (self : gui) (title message : string) : gui :=
  mkGui (path_var self) (status_label self)
    (errors_shown self ++ [(title, message)]) (threads_started self).

(** [threading.Thread(target=self.analyze_duplicates, args=(directory,),
    daemon=True).start()]. *)
Definition start_thread (self : gui) (directory : string) : gui :=
  mkGui (path_var self) (status_label self) (errors_shown self)
    (threads_started self ++ [directory]).

(** [folder] is what [filedialog.askdirectory()] answered. *)
Definition browse_folder (self : gui) (folder : string) : gui :=
  if negb (String.eqb folder "")
  then mkGui folder (status_label self) (errors_shown self) (threads_started self)
  else self.

Section Window.

Variable sha256 : list byte -> N.

Definition run_analysis (self : gui) : M gui :=
  let directory := strip (path_var self) in
  valid <- os_path_isdir directory ;;
  if negb valid
  then ret (showerror self "Error" "Por favor selecciona un directorio válido.")
  else
    let self := config_status self "Analizando archivos..." in
    ret (start_thread self directory).

Definition analyze_duplicates (self : gui) (directory : string) : M gui :=
  duplicates <- find_duplicate_files sha256 directory ;;
  let total_duplicates :=
    fold_right Z.add 0%Z
      (map (fun paths => (Z.of_nat (List.length paths) - 1)%Z) (values duplicates)) in
  space_reclaimable <- calculate_reclaimable_space duplicates ;;
  save_results_to_csv duplicates default_filename ;;;
  size <- lift (format_size space_reclaimable) ;;
  let result_msg :=
    "✅ Análisis completado." ++ newline
    ++ "Ficheros duplicados encontrados: " ++ str_int total_duplicates ++ newline
    ++ "Espacio potencialmente liberable: " ++ str_size size ++ newline
    ++ "Resultados guardados en 'duplicados.csv'" in
  ret (config_status self result_msg).

End Window.

(** ** Notions the statements below use *)

(** The byte count after [k] divisions by 1024. *)
Fixpoint scaled (k : nat) (x : Q) : Q :=
  match k with
  | O => x
  | S k' => scaled k' (x / inject_Z 1024)%Q
  end.

(** What hashing the file at [path] comes to: its digest in hexadecimal,
    or the exception that [open] or a [read] raised. *)
Definition file_digest (sha256 : list byte -> N) (root : node) (path : string)
    (block_size : Z) : result string :=
  match open_file root path with
  | Raise e => Raise e
  | Ok f =>
      match read_chunks f block_size [] with
      | Raise e => Raise e
      | Ok fed => Ok (hexdigest sha256 fed)
      end
  end.

(** The digest [find_duplicate_files] files a path under, if any. *)
Definition digest_of (sha256 : list byte -> N) (root : node) (path : string)
  : option string :=
  match file_digest sha256 root path default_block_size with
  | Ok h => Some h
  | Raise _ => None
  end.



(** The paths [find_duplicate_files] visits under [base], in its order. *)
Definition enumerate (root : node) (base : string) : list string :=
  flat_map (fun '(dirpath, _, filenames) => map (path_join dirpath) filenames)
    (walk root base).

(** Filing one path under its digest; a path without a digest is left out. *)
Definition file_under (sha256 : list byte -> N) (root : node) (d : dict) (path : string)
  : dict :=
  match digest_of sha256 root path with
  | Some h => dict_append d h path
  | None => d
  end.

(** One step of the inner loop: a path goes into the dictionary when it
    has a digest, and the counter goes up with it. *)
Definition file_step (sha256 : list byte -> N) (root : node) (dirpath : string)
    (acc : dict * Z) (filename : string) : dict * Z :=
  let full_path := path_join dirpath filename in
  (file_under sha256 root (fst acc) full_path,
   match digest_of sha256 root full_path with
   | Some _ => (snd acc + 1)%Z
   | None => snd acc
   end).

(** The dictionary after the paths [paths] have been filed, starting from [d]. *)
Definition index (sha256 : list byte -> N) (root : node) (paths : list string) (d : dict)
  : dict :=
  fold_left (file_under sha256 root) paths d.

(** The paths a dictionary holds under a digest. *)
Definition group (d : dict) (h : string) : list string :=
  match assoc h d with
  | Some paths => paths
  | None => []
  end.

Definition has_digest (sha256 : list byte -> N) (root : node) (h : string) (path : string)
  : bool :=
  match digest_of sha256 root path with
  | Some h' => String.eqb h' h
  | None => false
  end.

(** The filter of the dict comprehension: [len(paths) > 1]. *)
Definition more_than_one (item : string * list string) : bool :=
  let '(h, paths) := item in (1 <? List.length paths)%nat.

(** Two worlds with the same files and the same pending input. *)
Definition same_files (w w' : world) : Prop :=
  fs w' = fs w /\ stdin w' = stdin w.

(** The bytes of the regular file a path names. *)
Definition content (root : node) (path : string) : option (list byte) :=
  match resolve root path with
  | Some (File f) => Some (f_data f)
  | _ => None
  end.

(** The size of a file as the estimate counts it: zero when the query fails. *)
Definition size_or_zero (root : node) (path : string) : N :=
  match getsize root path with
  | Ok n => n
  | Raise _ => 0%N
  end.

Definition sum_sizes (root : node) (paths : list string) : N :=
  fold_right N.add 0%N (map (size_or_zero root) paths).

(** The report: the header, then a row for each path of each group. *)
Definition header : list string := ["Hash"; "Ruta de archivo duplicado"].

Definition report_rows (d : dict) : list (list string) :=
  header :: flat_map (fun '(h, paths) => map (fun path => [h; path]) paths) d.

(** The text of a CSV file with the rows [rows]. *)
Definition csv_text (rows : list (list string)) : string :=
  fold_right (fun fields text => Csv.row fields ++ text) "" rows.

(** ** A small tree to run the detector on

    Three copies of one content, one file of another, a file that
    cannot be opened, and an old report. *)

Module Example.

Definition text (s : string) : file := mkFile (list_byte_of_string s) None.

Definition sub : node :=
  Dir 4096 true
    [("b.txt", File (text "AAAA"));
     ("c.txt", File (text "B"));
     ("locked", File (mkFile (list_byte_of_string "AAAA") (Some 0%nat)))].

Definition tree : node :=
  Dir 4096 true
    [("a.txt", File (text "AAAA"));
     ("sub", sub);
     ("d.txt", File (text "AAAA"));
     ("duplicados.csv", File (text "an old report"))].

(** The same tree, its entries listed in another order. *)
Definition tree_listed_otherwise : node :=
  Dir 4096 true
    [("d.txt", File (text "AAAA"));
     ("sub", sub);
     ("a.txt", File (text "AAAA"));
     ("duplicados.csv", File (text "an old report"))].

Definition world_of (root : node) (typed : string) : world :=
  mkWorld root [typed] [].

Definition digest_A : string :=
  Eval vm_compute in hexdigest SHA256.sha256 (list_byte_of_string "AAAA").

Definition duplicates : dict :=
  [(digest_A, ["./a.txt"; "./d.txt"; "./sub/b.txt"])].

End Example.

(** ** Notions for the further properties *)

(** What hashing one visited path adds to the log: the file is opened,
    and a line is printed when that or a read fails. *)
Definition hash_events (sha256 : list byte -> N) (root : node) (path : string)
  : list event :=
  EvOpenRead path
    :: match file_digest sha256 root path default_block_size with
       | Ok _ => []
       | Raise e => [EvPrint ("Error al leer " ++ path ++ ": " ++ str_exn e)]
       end.

(** What asking for the size of one path adds to the log. *)
Definition size_events (root : node) (path : string) : list event :=
  EvGetsize path
    :: match getsize root path with
       | Ok _ => []
       | Raise e => [EvPrint ("Error al obtener tamaño de " ++ path ++ ": " ++ str_exn e)]
       end.

(** The file system after [save_results_to_csv]: the report written, or
    the tree as it was when the file cannot be opened. *)
Definition report_written (root : node) (duplicates : dict) (filename : string) : node :=
  match write_file root filename [] with
  | Raise _ => root
  | Ok root1 =>
      match write_file root1 filename
              (list_byte_of_string (csv_text (report_rows duplicates))) with
      | Ok root2 => root2
      | Raise _ => root1
      end
  end.

(** [sum(len(paths) - 1 for paths in duplicates.values())]. *)
Definition total_duplicates (duplicates : dict) : Z :=
  fold_right Z.add 0%Z
    (map (fun paths => (Z.of_nat (List.length paths) - 1)%Z) (values duplicates)).

(** What [find_duplicate_files] returns, as a function of the tree. *)
Definition duplicates_of (sha256 : list byte -> N) (root : node) (base : string) : dict :=
  filter more_than_one (index sha256 root (enumerate root base) []).

(** What [calculate_reclaimable_space] returns, as a function of the tree. *)
Definition reclaimable (root : node) (duplicates : dict) : N :=
  fold_right N.add 0%N (map (fun paths => sum_sizes root (tl paths)) (values duplicates)).

(** What the three passes over a directory add to the log: the walk and
    the files opened for hashing, the sizes asked for, and the report
    opened for writing. *)
Definition analysis_events (sha256 : list byte -> N) (root : node) (directory : string)
  : list event :=
  (EvWalk directory
     :: flat_map (hash_events sha256 root) (enumerate root directory))
  ++ flat_map (fun paths => flat_map (size_events root) (tl paths))
       (values (duplicates_of sha256 root directory))
  ++ [EvOpenWrite default_filename].

(** The text [analyze_duplicates] puts in the status label. *)
Definition result_message (count : Z) (size : option string) : string :=
  "✅ Análisis completado." ++ newline
  ++ "Ficheros duplicados encontrados: " ++ str_int count ++ newline
  ++ "Espacio potencialmente liberable: " ++ str_size size ++ newline
  ++ "Resultados guardados en 'duplicados.csv'".

(** The regular file, and whether there is a directory, at a list of names. *)
Definition file_at (n : node) (cs : list string) : option file :=
  match lookup n cs with
  | Some (File f) => Some f
  | _ => None
  end.

Definition dir_at (n : node) (cs : list string) : bool :=
  match lookup n cs with
  | Some m => is_dir m
  | None => false
  end.

(** ** More trees to run on *)

Module Trees.

(** A directory with nothing in it. *)
Definition empty : node := Dir 4096 true [].

(** A tree where the name of the report is taken by a directory. *)
Definition report_is_a_directory : node :=
  Dir 4096 true
    [("a.txt", File (Example.text "AAAA"));
     ("b.txt", File (Example.text "AAAA"));
     ("duplicados.csv", Dir 4096 true [])].

(** The window, with a path typed in its entry. *)
Definition window (typed : string) : gui := mkGui typed "" [] [].

End Trees.

(** * Properties *)

(** ** [format_size] *)

Section FormatSize.

Local Open Scope Q_scope.

Lemma Qle_bool_false (x y : Q) : Qle_bool x y = false <-> y < x.
Proof.
  split; intros H.
  - apply Qnot_le_lt. intros Hle. apply Qle_bool_iff in Hle. congruence.
  - destruct (Qle_bool x y) eqn:E; [|reflexivity].
    apply Qle_bool_iff in E. exfalso. revert E. apply Qlt_not_le. exact H.
Qed.

Lemma scaled_spec (k : nat) (x : Q) : scaled k x == x / inject_Z (1024 ^ Z.of_nat k).
Proof.
  revert x. induction k as [|k IH]; intros x.
  - cbn. field.
  - cbn [scaled]. rewrite IH.
    replace (1024 ^ Z.of_nat (S k))%Z with (1024 * 1024 ^ Z.of_nat k)%Z
      by (rewrite Nat2Z.inj_succ, Z.pow_succ_r by lia; reflexivity).
    rewrite inject_Z_mult.
    assert (Hpos : ~ inject_Z (1024 ^ Z.of_nat k) == 0).
    { intros H. assert (0 < 1024 ^ Z.of_nat k)%Z as Hp by (apply Z.pow_pos_nonneg; lia).
      rewrite Zlt_Qlt in Hp. rewrite H in Hp. revert Hp. apply Qlt_irrefl. }
    field. exact Hpos.
Qed.

(** Below the overflow bound the quotient is what [true_divide_1024] gives. *)
Lemma true_divide_1024_ok (x : Q) :
  inject_Z 1024 <= x -> x < float_overflow ->
  true_divide_1024 x = Ok (x / inject_Z 1024).
Proof.
  intros Hx Hlt. unfold true_divide_1024.
  replace (Qle_bool float_overflow (x / inject_Z 1024)) with false; [reflexivity|].
  symmetry. apply Qle_bool_false.
  unfold Qdiv. change (/ inject_Z 1024) with (1 # 1024).
  change (inject_Z 1024) with (1024 # 1) in Hx. lra.
Qed.

(** The loop stops at the first unit whose scaled value is below 1024. *)
Lemma format_size_loop_stops (k : nat) :
  forall (us : list string) (x : Q),
    (k < List.length us)%nat ->
    x < float_overflow ->
    scaled k x < inject_Z 1024 ->
    (forall j, (j < k)%nat -> inject_Z 1024 <= scaled j x) ->
    format_size_loop us x
    = Ok (Some (Fmt.format_2f (scaled k x) ++ " " ++ nth k us "")%string).
Proof.
  induction k as [|k IH]; intros us x Hlen Hov Hlt Hge;
    (destruct us as [|unit rest]; [cbn in Hlen; lia|]).
  - cbn in Hlt. cbn [format_size_loop scaled nth].
    replace (Qle_bool (inject_Z 1024) x) with false
      by (symmetry; apply Qle_bool_false; exact Hlt).
    reflexivity.
  - assert (H0 : inject_Z 1024 <= x) by (apply (Hge 0%nat); lia).
    cbn [format_size_loop].
    replace (Qle_bool (inject_Z 1024) x) with true
      by (symmetry; apply Qle_bool_iff; exact H0).
    cbn [negb]. rewrite true_divide_1024_ok by assumption.
    rewrite (IH rest (x / inject_Z 1024)).
    + reflexivity.
    + cbn in Hlen. lia.
    + unfold Qdiv. change (/ inject_Z 1024) with (1 # 1024).
      change (inject_Z 1024) with (1024 # 1) in H0. lra.
    + exact Hlt.
    + intros j Hj. apply (Hge (S j)). lia.
Qed.

(** Once the value has reached [1024 ^ length us], no unit of [us] fits. *)
Lemma format_size_loop_falls_through (us : list string) :
  forall x : Q,
    inject_Z (1024 ^ Z.of_nat (List.length us)) <= x ->
    format_size_loop us x = Ok None \/ format_size_loop us x = Raise OverflowError.
Proof.
  induction us as [|unit rest IH]; intros x Hx.
  - left. reflexivity.
  - cbn [List.length] in Hx.
    replace (1024 ^ Z.of_nat (S (List.length rest)))%Z
      with (1024 * 1024 ^ Z.of_nat (List.length rest))%Z in Hx
      by (rewrite Nat2Z.inj_succ, Z.pow_succ_r by lia; reflexivity).
    rewrite inject_Z_mult in Hx.
    set (t := inject_Z (1024 ^ Z.of_nat (List.length rest))) in *.
    assert (Ht : 1 <= t).
    { subst t. change 1 with (inject_Z 1). rewrite <- Zle_Qle.
      assert (0 < 1024 ^ Z.of_nat (List.length rest))%Z
        by (apply Z.pow_pos_nonneg; lia). lia. }
    change (inject_Z 1024) with (1024 # 1) in Hx.
    cbn [format_size_loop].
    replace (Qle_bool (inject_Z 1024) x) with true
      by (symmetry; apply Qle_bool_iff; change (inject_Z 1024) with (1024 # 1); nra).
    cbn [negb]. unfold true_divide_1024.
    destruct (Qle_bool float_overflow (x / inject_Z 1024)).
    + right. reflexivity.
    + apply IH. fold t. unfold Qdiv. change (/ inject_Z 1024) with (1 # 1024). lra.
Qed.

End FormatSize.

Lemma format_size_in_range (bytes : N) (k : nat) :
  (k < 5)%nat ->
  (scaled k (inject_Z (Z.of_N bytes)) < inject_Z 1024)%Q ->
  (inject_Z (Z.of_N bytes) < float_overflow)%Q.
Proof.
  intros Hk Hlt.
  set (x := inject_Z (Z.of_N bytes)) in *.
  assert (Hb : (x < 1125899906842624 # 1)%Q).
  { do 5 (destruct k as [|k]; [cbn [scaled] in Hlt; unfold Qdiv in Hlt;
      change (/ inject_Z 1024)%Q with (1 # 1024)%Q in Hlt;
      change (inject_Z 1024) with (1024 # 1)%Q in Hlt;
      assert (0 <= x)%Q by (subst x; change 0%Q with (inject_Z 0);
        rewrite <- Zle_Qle; lia); lra|]).
    lia. }
  eapply Qlt_trans; [exact Hb|]. vm_compute. reflexivity.
Qed.

(** C5. [format_size] gives ["0.00 B"] for 0, ["1.00 KB"] for 1024,
    ["1.50 KB"] for 1536 and ["1.00 MB"] for 1048576.  In general it
    divides by 1024 along B, KB, MB, GB, TB, stops at the first unit where
    the scaled value is below 1024, and prints that value with two
    decimals, a space and the unit. *)
Theorem format_size_first_unit_below_1024 :
  format_size 0 = Ok (Some "0.00 B")
  /\ format_size 1024 = Ok (Some "1.00 KB")
  /\ format_size 1536 = Ok (Some "1.50 KB")
  /\ format_size 1048576 = Ok (Some "1.00 MB")
  /\ forall (bytes : N) (k : nat),
       (k < 5)%nat ->
       (scaled k (inject_Z (Z.of_N bytes)) < inject_Z 1024)%Q ->
       (forall j, (j < k)%nat ->
                  (inject_Z 1024 <= scaled j (inject_Z (Z.of_N bytes)))%Q) ->
       format_size bytes
       = Ok (Some (Fmt.format_2f (scaled k (inject_Z (Z.of_N bytes)))
                   ++ " " ++ nth k units "")).
Proof.
  repeat split; try (vm_compute; reflexivity).
  intros bytes k Hk Hlt Hge. unfold format_size.
  apply format_size_loop_stops.
  - exact Hk.
  - exact (format_size_in_range bytes k Hk Hlt).
  - exact Hlt.
  - exact Hge.
Qed.

(** C1. From [1024^5] bytes on no unit of the list fits: the loop runs
    off its end and [format_size] returns [None] (or the first division
    overflows); it returns no string in TB. *)
Theorem format_size_no_string_from_1024_pow_5 (bytes : N) :
  (1024 ^ 5 <= bytes)%N ->
  format_size bytes = Ok None \/ format_size bytes = Raise OverflowError.
Proof.
  intros H. unfold format_size. apply format_size_loop_falls_through.
  rewrite <- Zle_Qle. change (List.length units) with 5%nat.
  change (1024 ^ Z.of_nat 5)%Z with (Z.of_N (1024 ^ 5)). lia.
Qed.

Example format_size_1024_pow_5 : format_size (1024 ^ 5) = Ok None.
Proof. vm_compute. reflexivity. Qed.

Example format_size_overflows :
  format_size (2 ^ 1034 - 2 ^ 980) = Raise OverflowError
  /\ format_size (2 ^ 1034 - 2 ^ 980 - 1) = Ok None.
Proof. vm_compute. split; reflexivity. Qed.
Example format_size_docstring_1 : format_size 1024 = Ok (Some "1.00 KB").
Proof. vm_compute. reflexivity. Qed.

Example format_size_docstring_2 : format_size 1536 = Ok (Some "1.50 KB").
Proof. vm_compute. reflexivity. Qed.

Example format_size_docstring_3 : format_size 1048576 = Ok (Some "1.00 MB").
Proof. vm_compute. reflexivity. Qed.

Example format_size_ties_to_even :
  format_size 3200 = Ok (Some "3.12 KB") /\ format_size 9600 = Ok (Some "9.38 KB").
Proof. vm_compute. split; reflexivity. Qed.

Example format_size_rounds_up_to_1024 : format_size 1048575 = Ok (Some "1024.00 KB").
Proof. vm_compute. reflexivity. Qed.

(** ** Running programs *)

(** Unfolds the monad in the goal. *)
Ltac run :=
  unfold bind, ret, lift, try_except, print, emit,
    os_path_isdir, os_walk, os_path_getsize, open_rb, input; cbn.

(** ** [compute_file_hash] *)

Lemma read_all_or_nothing (f : reader) (n : Z) (chunk : list byte) (f' : reader) :
  read f n = Ok (chunk, f') ->
  (chunk ++ r_rest f')%list = r_rest f
  /\ (n <> 0%Z -> chunk = [] -> r_rest f = []).
Proof.
  unfold read. intros H.
  assert (Hk : chunk = firstn (if (n <? 0)%Z then List.length (r_rest f) else Z.to_nat n)
                         (r_rest f)
               /\ r_rest f' = skipn (if (n <? 0)%Z then List.length (r_rest f)
                                     else Z.to_nat n) (r_rest f)).
  { destruct (r_fault f) as [[|k]|]; try discriminate;
      inversion H; subst; cbn; split; reflexivity. }
  destruct Hk as [-> ->]. split.
  - apply firstn_skipn.
  - intros Hn Hnil. destruct (r_rest f) as [|b bs]; [reflexivity|].
    destruct (n <? 0)%Z eqn:E.
    + cbn in Hnil. discriminate.
    + apply Z.ltb_ge in E.
      destruct (Z.to_nat n) as [|k] eqn:Ek; [lia|]. cbn in Hnil. discriminate.
Qed.

(** The loop feeds the hash object every byte of the file, in order. *)
Lemma read_chunks_feeds_all (f : reader) (block_size : Z) (fed out : list byte) :
  block_size <> 0%Z ->
  read_chunks f block_size fed = Ok out ->
  out = (fed ++ r_rest f)%list.
Proof.
  intros Hbs. funelim (read_chunks f block_size fed); intros Hout.
  - inversion Hout; subst.
    match goal with E : read _ _ = Ok ([], _) |- _ =>
      destruct (read_all_or_nothing _ _ _ _ E) as [_ Hnil] end.
    rewrite (Hnil Hbs eq_refl), app_nil_r. reflexivity.
  - match goal with E : read _ _ = Ok (_ :: _, _) |- _ =>
      destruct (read_all_or_nothing _ _ _ _ E) as [Happ _] end.
    match goal with IH : forall _, _ -> _ -> _ = (_ ++ r_rest _)%list |- _ =>
      rewrite (IH _ Hbs Hout) end.
    rewrite <- Happ, <- app_assoc. reflexivity.
  - discriminate.
Qed.


Section Hashing.

Variable sha256 : list byte -> N.

Lemma length_append (s t : string) :
  String.length (s ++ t) = (String.length s + String.length t)%nat.
Proof. induction s as [|c s IH]; cbn; [reflexivity | rewrite IH; reflexivity]. Qed.

Lemma hex_length (digits : nat) (n : N) : String.length (hex digits n) = digits.
Proof.
  revert n. induction digits as [|d IH]; intros n; [reflexivity|].
  cbn [hex]. rewrite length_append, IH. cbn. lia.
Qed.





Lemma hexdigest_not_empty (fed : list byte) : hexdigest sha256 fed <> "".
Proof.
  intros H. pose proof (hex_length 64 (sha256 fed)) as L.
  unfold hexdigest in H. rewrite H in L. discriminate.
Qed.

(** What [compute_file_hash] does to the world, and what it returns. *)
Lemma compute_file_hash_run (path : string) (block_size : Z) (w : world) :
  compute_file_hash sha256 path block_size w
  = match file_digest sha256 (fs w) path block_size with
    | Ok h =>
        (Ok (Some h), mkWorld (fs w) (stdin w) (log w ++ [EvOpenRead path]))
    | Raise e =>
        (Ok None,
         mkWorld (fs w) (stdin w)
           ((log w ++ [EvOpenRead path])
              ++ [EvPrint ("Error al leer " ++ path ++ ": " ++ str_exn e)]))
    end.
Proof.
  unfold compute_file_hash, file_digest. run.
  destruct (open_file (fs w) path) as [f|e]; [|reflexivity].
  destruct (read_chunks f block_size []) as [fed|e]; reflexivity.
Qed.

(** A digest that comes out is the digest of all the bytes of the file. *)
Lemma file_digest_ok (root : node) (path : string) (block_size : Z) (h : string) :
  block_size <> 0%Z ->
  file_digest sha256 root path block_size = Ok h ->
  exists f, resolve root path = Some (File f) /\ h = hexdigest sha256 (f_data f).
Proof.
  intros Hbs. unfold file_digest, open_file.
  destruct (resolve root path) as [[f|? ? ?]|]; try discriminate.
  destruct (f_fault f) as [[|k]|]; try discriminate;
    (destruct (read_chunks _ block_size []) as [fed|e] eqn:E; [|discriminate]);
    intros H; inversion H; subst;
    apply (read_chunks_feeds_all _ _ _ _ Hbs) in E; cbn in E; subst fed;
    exists f; split; reflexivity.
Qed.



End Hashing.

(** ** Dictionaries *)

Section Dict.

Lemma assoc_dict_append (d : dict) (k v k' : string) :
  assoc k' (dict_append d k v)
  = if String.eqb k k' then Some (group d k ++ [v])%list else assoc k' d.
Proof.
  unfold group. induction d as [|[k0 vs] d IH]; cbn.
  - destruct (String.eqb k k'); reflexivity.
  - destruct (String.eqb k0 k) eqn:E0; cbn.
    + apply String.eqb_eq in E0. subst k0.
      destruct (String.eqb k k'); reflexivity.
    + rewrite IH. destruct (String.eqb k k') eqn:E1.
      * apply String.eqb_eq in E1. subst k'. rewrite E0. reflexivity.
      * reflexivity.
Qed.

Lemma group_dict_append (d : dict) (k v h : string) :
  group (dict_append d k v) h
  = if String.eqb k h then (group d h ++ [v])%list else group d h.
Proof.
  unfold group at 1. rewrite assoc_dict_append.
  destruct (String.eqb k h) eqn:E; [|reflexivity].
  apply String.eqb_eq in E. subst h. reflexivity.
Qed.

Lemma assoc_in (d : dict) (k : string) (vs : list string) :
  assoc k d = Some vs -> In (k, vs) d.
Proof.
  induction d as [|[k0 vs0] d IH]; cbn; [discriminate|].
  destruct (String.eqb k0 k) eqn:E.
  - apply String.eqb_eq in E. subst k0. intros H. inversion H. left. reflexivity.
  - intros H. right. apply IH. exact H.
Qed.

Lemma in_assoc (d : dict) (k : string) (vs : list string) :
  NoDup (map fst d) -> In (k, vs) d -> assoc k d = Some vs.
Proof.
  induction d as [|[k0 vs0] d IH]; cbn; [contradiction|].
  intros Hnd [Heq|Hin].
  - inversion Heq; subst. rewrite String.eqb_refl. reflexivity.
  - inversion Hnd as [|? ? Hnotin Hnd']; subst.
    destruct (String.eqb k0 k) eqn:E.
    + apply String.eqb_eq in E. subst k0. exfalso. apply Hnotin.
      apply (in_map fst) in Hin. exact Hin.
    + apply IH; assumption.
Qed.

Lemma assoc_none_keys (d : dict) (k : string) :
  assoc k d = None <-> ~ In k (map fst d).
Proof.
  induction d as [|[k0 vs0] d IH]; cbn.
  - tauto.
  - destruct (String.eqb k0 k) eqn:E.
    + apply String.eqb_eq in E. subst k0. split; [discriminate|]. intros H.
      exfalso. apply H. left. reflexivity.
    + apply String.eqb_neq in E. rewrite IH. tauto.
Qed.

Lemma keys_dict_append (d : dict) (k v : string) :
  map fst (dict_append d k v)
  = match assoc k d with
    | Some _ => map fst d
    | None => (map fst d ++ [k])%list
    end.
Proof.
  induction d as [|[k0 vs] d IH]; cbn; [reflexivity|].
  destruct (String.eqb k0 k) eqn:E; cbn; [reflexivity|].
  rewrite IH. destruct (assoc k d); reflexivity.
Qed.

Lemma NoDup_dict_append (d : dict) (k v : string) :
  NoDup (map fst d) -> NoDup (map fst (dict_append d k v)).
Proof.
  intros H. rewrite keys_dict_append.
  destruct (assoc k d) eqn:E; [exact H|].
  apply assoc_none_keys in E.
  apply NoDup_app; [exact H | repeat constructor; intros [] | ].
  intros x Hx [Hk|[]]. subst x. contradiction.
Qed.

Lemma filter_keys_NoDup (f : string * list string -> bool) (d : dict) :
  NoDup (map fst d) -> NoDup (map fst (filter f d)).
Proof.
  induction d as [|[k vs] d IH]; cbn; [constructor|].
  intros H. inversion H as [|? ? Hnotin Hnd]; subst.
  destruct (f (k, vs)); cbn; [|apply IH; exact Hnd].
  constructor; [|apply IH; exact Hnd].
  intros Hin. apply Hnotin. apply in_map_iff in Hin.
  destruct Hin as [[k' vs'] [Hk Hin]]. cbn in Hk. subst k'.
  apply filter_In in Hin. destruct Hin as [Hin _].
  apply (in_map fst) in Hin. exact Hin.
Qed.

Lemma assoc_filter (f : string * list string -> bool) (d : dict) (h : string) :
  NoDup (map fst d) ->
  assoc h (filter f d)
  = match assoc h d with
    | Some paths => if f (h, paths) then Some paths else None
    | None => None
    end.
Proof.
  induction d as [|[k vs] d IH]; cbn; [reflexivity|].
  intros H. inversion H as [|? ? Hnotin Hnd]; subst.
  destruct (String.eqb k h) eqn:E.
  - apply String.eqb_eq in E. subst k.
    destruct (f (h, vs)) eqn:Ef; cbn.
    + rewrite String.eqb_refl. reflexivity.
    + apply assoc_none_keys. intros Hin. apply Hnotin.
      apply in_map_iff in Hin. destruct Hin as [[k' vs'] [Hk Hin]].
      cbn in Hk. subst k'. apply filter_In in Hin. destruct Hin as [Hin _].
      apply (in_map fst) in Hin. exact Hin.
  - destruct (f (k, vs)); cbn; [rewrite E|]; apply IH; exact Hnd.
Qed.

Lemma group_filter_more_than_one (d : dict) (h : string) :
  NoDup (map fst d) ->
  group (filter more_than_one d) h
  = if (1 <? List.length (group d h))%nat then group d h else [].
Proof.
  intros H. unfold group. rewrite (assoc_filter _ _ _ H).
  destruct (assoc h d) as [paths|]; [|reflexivity].
  unfold more_than_one.
  destruct (1 <? List.length paths)%nat; reflexivity.
Qed.

End Dict.

(** ** [find_duplicate_files] *)

Lemma same_files_refl (w : world) : same_files w w.
Proof. split; reflexivity. Qed.

Lemma same_files_trans (w1 w2 w3 : world) :
  same_files w1 w2 -> same_files w2 w3 -> same_files w1 w3.
Proof. intros [H1 H2] [H3 H4]. split; congruence. Qed.

(** A loop whose body leaves the files alone and computes [f] is a fold. *)
Lemma for_each_fold {A S : Type} (body : A -> S -> M S) (f : S -> A -> S) (root : node) :
  (forall x s w, fs w = root ->
                 exists w', body x s w = (Ok (f s x), w') /\ same_files w w') ->
  forall l s w, fs w = root ->
                exists w', for_each l body s w = (Ok (fold_left f l s), w')
                           /\ same_files w w'.
Proof.
  intros Hbody l. induction l as [|x l IH]; intros s w Hw.
  - exists w. split; [reflexivity | apply same_files_refl].
  - destruct (Hbody x s w Hw) as [w1 [E1 S1]].
    destruct (IH (f s x) w1) as [w2 [E2 S2]].
    { destruct S1 as [S1 _]. congruence. }
    exists w2. split; [|eapply same_files_trans; eassumption].
    cbn [for_each]. unfold bind. rewrite E1. exact E2.
Qed.

Section Grouping.

Variable sha256 : list byte -> N.

Lemma digest_of_not_empty (root : node) (path h : string) :
  digest_of sha256 root path = Some h -> h <> "".
Proof.
  unfold digest_of, file_digest.
  destruct (open_file root path) as [f|e]; [|discriminate].
  destruct (read_chunks f default_block_size []) as [fed|e]; [|discriminate].
  intros H. inversion H. apply hexdigest_not_empty.
Qed.

Lemma group_file_under (root : node) (d : dict) (path h : string) :
  group (file_under sha256 root d path) h
  = (group d h ++ if has_digest sha256 root h path then [path] else [])%list.
Proof.
  unfold file_under, has_digest.
  destruct (digest_of sha256 root path) as [h'|].
  - rewrite group_dict_append. destruct (String.eqb h' h); [reflexivity|].
    rewrite app_nil_r. reflexivity.
  - rewrite app_nil_r. reflexivity.
Qed.

(** The group of a digest is the paths with that digest, in visiting order. *)
Lemma group_index (root : node) (paths : list string) (d : dict) (h : string) :
  group (index sha256 root paths d) h
  = (group d h ++ filter (has_digest sha256 root h) paths)%list.
Proof.
  revert d. induction paths as [|p paths IH]; intros d; cbn.
  - rewrite app_nil_r. reflexivity.
  - unfold index in IH. rewrite IH, group_file_under, <- app_assoc.
    destruct (has_digest sha256 root h p); reflexivity.
Qed.

Lemma NoDup_index (root : node) (paths : list string) (d : dict) :
  NoDup (map fst d) -> NoDup (map fst (index sha256 root paths d)).
Proof.
  revert d. induction paths as [|p paths IH]; intros d H; cbn; [exact H|].
  apply IH. unfold file_under.
  destruct (digest_of sha256 root p); [apply NoDup_dict_append|]; exact H.
Qed.

Lemma fst_fold_file_step (root : node) (dirpath : string) (filenames : list string)
    (acc : dict * Z) :
  fst (fold_left (file_step sha256 root dirpath) filenames acc)
  = index sha256 root (map (path_join dirpath) filenames) (fst acc).
Proof.
  revert acc. induction filenames as [|x l IH]; intros acc; cbn; [reflexivity|].
  rewrite IH. reflexivity.
Qed.

Lemma fst_fold_walk (root : node) (entries : list (string * list string * list string))
    (acc : dict * Z) :
  fst (fold_left
         (fun acc (e : string * list string * list string) =>
            let '(dirpath, _, filenames) := e in
            fold_left (file_step sha256 root dirpath) filenames acc)
         entries acc)
  = index sha256 root
      (flat_map (fun '(dirpath, _, filenames) => map (path_join dirpath) filenames)
         entries)
      (fst acc).
Proof.
  revert acc. induction entries as [|[[dirpath ds] filenames] l IH]; intros acc; cbn;
    [reflexivity|].
  rewrite IH, fst_fold_file_step. unfold index. rewrite fold_left_app. reflexivity.
Qed.

(** What [find_duplicate_files] returns: the index of the visited paths,
    without the digests that have one path only.  It does not raise and
    does not touch the files. *)
Lemma find_duplicate_files_run (base_directory : string) (w : world) :
  exists w',
    find_duplicate_files sha256 base_directory w
    = (Ok (filter more_than_one
             (index sha256 (fs w) (enumerate (fs w) base_directory) [])), w')
    /\ same_files w w'.
Proof.
  unfold find_duplicate_files. run.
  set (w1 := mkWorld (fs w) (stdin w) (log w ++ [EvWalk base_directory])).
  match goal with |- context [for_each (walk _ _) ?body _ _] =>
    destruct (for_each_fold body
                (fun acc (e : string * list string * list string) =>
                   let '(dirpath, _, filenames) := e in
                   fold_left (file_step sha256 (fs w) dirpath) filenames acc)
                (fs w))
      with (l := walk (fs w) base_directory)
           (s := (@nil (string * list string), 0%Z)) (w := w1)
      as [w2 [E2 S2]]
  end.
  { intros [[dirpath ds] filenames] s w0 Hw0.
    apply (for_each_fold _ (file_step sha256 (fs w) dirpath) (fs w)); [|exact Hw0].
    intros x [d t] w3 Hw3.
    unfold bind. rewrite compute_file_hash_run. unfold file_step, file_under, digest_of.
    cbn [fst snd]. rewrite Hw3.
    destruct (file_digest sha256 (fs w) (path_join dirpath x) default_block_size)
      as [h|e] eqn:E.
    - assert (Hne : h <> "").
      { apply (digest_of_not_empty (fs w) (path_join dirpath x)).
        unfold digest_of. rewrite E. reflexivity. }
      apply String.eqb_neq in Hne. cbn. rewrite Hne. cbn.
      eexists. split; [reflexivity|]. split; cbn; congruence.
    - eexists. split; [reflexivity|]. split; cbn; congruence. }
  { reflexivity. }
  exists w2. split.
  - fold w1. rewrite E2. rewrite fst_fold_walk. reflexivity.
  - eapply same_files_trans; [|exact S2]. split; reflexivity.
Qed.

End Grouping.

Section GroupingClaims.

Variable sha256 : list byte -> N.

Lemma two_members {A : Type} (l : list A) (x y : A) :
  In x l -> In y l -> x <> y -> 2 <= List.length l.
Proof.
  destruct l as [|a [|b l]]; cbn; intros Hx Hy Hne; try contradiction; [|lia].
  destruct Hx as [<-|[]]. destruct Hy as [<-|[]]. contradiction.
Qed.

Lemma has_digest_true (root : node) (h path : string) :
  has_digest sha256 root h path = true <-> digest_of sha256 root path = Some h.
Proof.
  unfold has_digest. destruct (digest_of sha256 root path) as [h'|].
  - split.
    + intros E. apply String.eqb_eq in E. subst. reflexivity.
    + intros E. inversion E. apply String.eqb_refl.
  - split; discriminate.
Qed.

(** A file that got a digest got the digest of its content. *)
Lemma digest_of_content (root : node) (path h : string) :
  digest_of sha256 root path = Some h ->
  exists c, content root path = Some c /\ h = hexdigest sha256 c.
Proof.
  unfold digest_of.
  destruct (file_digest sha256 root path default_block_size) as [h'|e] eqn:E;
    [|discriminate].
  intros H. inversion H; subst h'.
  apply file_digest_ok in E; [|discriminate].
  destruct E as [f [Hres ->]]. exists (f_data f).
  unfold content. rewrite Hres. split; reflexivity.
Qed.

(** The groups of the result, one by one. *)
Lemma in_result (root : node) (paths : list string) (h : string) (ps : list string) :
  In (h, ps) (filter more_than_one (index sha256 root paths []))
  <-> ps = filter (has_digest sha256 root h) paths /\ 2 <= List.length ps.
Proof.
  assert (Hnd : NoDup (map fst (index sha256 root paths [])))
    by (apply NoDup_index; constructor).
  rewrite filter_In. unfold more_than_one. rewrite Nat.ltb_lt. split.
  - intros [Hin Hlen]. split; [|lia].
    apply (in_assoc _ _ _ Hnd) in Hin.
    pose proof (group_index sha256 root paths [] h) as G.
    unfold group at 1 in G. rewrite Hin in G. exact G.
  - intros [-> Hlen]. split; [|lia].
    apply assoc_in.
    pose proof (group_index sha256 root paths [] h) as G. cbn in G.
    unfold group in G.
    destruct (assoc h (index sha256 root paths [])) as [l|]; [congruence|].
    rewrite <- G in Hlen. cbn in Hlen. lia.
Qed.

(** C3. In what [find_duplicate_files] returns, each digest has one
    group; every group has two paths or more, all with the group's digest;
    two files with the same bytes, both hashed, are together in exactly
    one group; and two files whose bytes differ are not in one group,
    unless their digests collide. *)
Theorem find_duplicate_files_groups (base_directory : string) (w : world) :
  exists d w',
    find_duplicate_files sha256 base_directory w = (Ok d, w')
    /\ NoDup (map fst d)
    /\ (forall h paths,
          In (h, paths) d ->
          2 <= List.length paths
          /\ forall p, In p paths -> digest_of sha256 (fs w) p = Some h)
    /\ (forall p q c,
          In p (enumerate (fs w) base_directory) ->
          In q (enumerate (fs w) base_directory) ->
          p <> q ->
          content (fs w) p = Some c -> content (fs w) q = Some c ->
          digest_of sha256 (fs w) p <> None -> digest_of sha256 (fs w) q <> None ->
          exists h paths,
            In (h, paths) d /\ In p paths /\ In q paths
            /\ forall h' paths',
                 In (h', paths') d -> In p paths' \/ In q paths' ->
                 (h', paths') = (h, paths))
    /\ (forall h paths p q cp cq,
          In (h, paths) d ->
          content (fs w) p = Some cp -> content (fs w) q = Some cq ->
          cp <> cq ->
          hexdigest sha256 cp <> hexdigest sha256 cq ->
          ~ (In p paths /\ In q paths)).
Proof.
  destruct (find_duplicate_files_run sha256 base_directory w) as [w' [E _]].
  set (files := enumerate (fs w) base_directory) in *.
  set (d := filter more_than_one (index sha256 (fs w) files [])) in *.
  assert (Hnd : NoDup (map fst d)).
  { apply filter_keys_NoDup, NoDup_index. constructor. }
  assert (Hgroup : forall h paths, In (h, paths) d ->
            2 <= List.length paths
            /\ forall p, In p paths -> digest_of sha256 (fs w) p = Some h).
  { intros h paths Hin. apply in_result in Hin. destruct Hin as [-> Hlen].
    split; [exact Hlen|]. intros p Hp. apply filter_In in Hp.
    apply has_digest_true, Hp. }
  exists d, w'. split; [exact E|]. split; [exact Hnd|]. split; [exact Hgroup|]. split.
  - intros p q c Hp Hq Hne Hcp Hcq Hdp Hdq.
    destruct (digest_of sha256 (fs w) p) as [hp|] eqn:Ep; [|contradiction].
    destruct (digest_of sha256 (fs w) q) as [hq|] eqn:Eq; [|contradiction].
    destruct (digest_of_content _ _ _ Ep) as [c1 [Hc1 ->]].
    destruct (digest_of_content _ _ _ Eq) as [c2 [Hc2 ->]].
    assert (c1 = c) by congruence. assert (c2 = c) by congruence. subst c1 c2.
    set (h := hexdigest sha256 c) in *.
    set (paths := filter (has_digest sha256 (fs w) h) files).
    assert (Hpin : In p paths)
      by (apply filter_In; split; [exact Hp | apply has_digest_true; exact Ep]).
    assert (Hqin : In q paths)
      by (apply filter_In; split; [exact Hq | apply has_digest_true; exact Eq]).
    assert (Hd : In (h, paths) d).
    { apply in_result. split; [reflexivity|]. exact (two_members _ _ _ Hpin Hqin Hne). }
    exists h, paths. repeat split; try assumption.
    intros h' paths' Hin' Hmem.
    assert (h' = h).
    { destruct (Hgroup h' paths' Hin') as [_ Hdig].
      destruct Hmem as [Hm|Hm]; apply Hdig in Hm; congruence. }
    subst h'. f_equal.
    apply (in_assoc _ _ _ Hnd) in Hin'. apply (in_assoc _ _ _ Hnd) in Hd. congruence.
  - intros h paths p q cp cq Hin Hcp Hcq Hne Hnocoll [Hp Hq].
    destruct (Hgroup h paths Hin) as [_ Hdig].
    destruct (digest_of_content _ _ _ (Hdig p Hp)) as [c1 [Hc1 H1]].
    destruct (digest_of_content _ _ _ (Hdig q Hq)) as [c2 [Hc2 H2]].
    apply Hnocoll. congruence.
Qed.


Lemma Permutation_filter_same {A : Type} (g : A -> bool) (l l' : list A) :
  Permutation l l' -> Permutation (filter g l) (filter g l').
Proof.
  intros HP. induction HP as [|x l l' HP IH|x y l|l l' l'' HP1 IH1 HP2 IH2]; cbn.
  - apply perm_nil.
  - destruct (g x); [apply perm_skip|]; exact IH.
  - destruct (g x), (g y); try apply Permutation_refl. apply perm_swap.
  - eapply perm_trans; eassumption.
Qed.

Lemma Permutation_filter_ext {A : Type} (f g : A -> bool) (l l' : list A) :
  Permutation l l' ->
  (forall x, In x l -> f x = g x) ->
  Permutation (filter f l) (filter g l').
Proof.
  intros HP Hext. rewrite (filter_ext_in f g l Hext).
  apply Permutation_filter_same. exact HP.
Qed.

Lemma digest_of_same_file (root1 root2 : node) (path : string) :
  resolve root1 path = resolve root2 path ->
  digest_of sha256 root1 path = digest_of sha256 root2 path.
Proof.
  intros H. unfold digest_of, file_digest, open_file. rewrite H. reflexivity.
Qed.

Lemma keys_of_result (root : node) (paths : list string) (h : string) :
  In h (map fst (filter more_than_one (index sha256 root paths [])))
  <-> 2 <= List.length (filter (has_digest sha256 root h) paths).
Proof.
  split.
  - intros Hin. apply in_map_iff in Hin. destruct Hin as [[h' ps] [Hh Hin]].
    cbn in Hh. subst h'. apply in_result in Hin. destruct Hin as [-> Hlen]. exact Hlen.
  - intros Hlen.
    apply (in_map fst _ (h, filter (has_digest sha256 root h) paths)).
    apply in_result. split; [reflexivity | exact Hlen].
Qed.

(** C8. Two runs over the same files with the same contents, visited in
    whatever two orders, return the same digests, each with the same
    paths; only the order of the paths within a group can differ. *)
Theorem find_duplicate_files_order_independent (base_directory : string) (w1 w2 : world) :
  Permutation (enumerate (fs w1) base_directory) (enumerate (fs w2) base_directory) ->
  (forall p, In p (enumerate (fs w1) base_directory) ->
             resolve (fs w1) p = resolve (fs w2) p) ->
  exists d1 w1' d2 w2',
    find_duplicate_files sha256 base_directory w1 = (Ok d1, w1')
    /\ find_duplicate_files sha256 base_directory w2 = (Ok d2, w2')
    /\ (forall h, In h (map fst d1) <-> In h (map fst d2))
    /\ (forall h, Permutation (group d1 h) (group d2 h)).
Proof.
  intros HP Hsame.
  destruct (find_duplicate_files_run sha256 base_directory w1) as [w1' [E1 _]].
  destruct (find_duplicate_files_run sha256 base_directory w2) as [w2' [E2 _]].
  do 4 eexists. split; [exact E1|]. split; [exact E2|].
  assert (Hfilter : forall h,
            Permutation
              (filter (has_digest sha256 (fs w1) h) (enumerate (fs w1) base_directory))
              (filter (has_digest sha256 (fs w2) h) (enumerate (fs w2) base_directory))).
  { intros h. apply Permutation_filter_ext; [exact HP|].
    intros p Hp. unfold has_digest.
    rewrite (digest_of_same_file _ _ _ (Hsame p Hp)). reflexivity. }
  split.
  - intros h. rewrite !keys_of_result.
    rewrite (Permutation_length (Hfilter h)). tauto.
  - intros h.
    rewrite !group_filter_more_than_one by (apply NoDup_index; constructor).
    rewrite !group_index. cbn [group assoc app].
    rewrite (Permutation_length (Hfilter h)).
    destruct (1 <? _)%nat; [apply Hfilter | apply perm_nil].
Qed.



End GroupingClaims.

(** ** [calculate_reclaimable_space] *)

Section Space.

Lemma fold_left_add_sizes (root : node) (paths : list string) (space : N) :
  fold_left (fun space path => (space + size_or_zero root path)%N) paths space
  = (space + sum_sizes root paths)%N.
Proof.
  revert space. induction paths as [|p paths IH]; intros space; cbn.
  - lia.
  - rewrite IH. unfold sum_sizes. lia.
Qed.

Lemma fold_left_add_groups (root : node) (groups : list (list string)) (space : N) :
  fold_left (fun space paths =>
               fold_left (fun space path => (space + size_or_zero root path)%N)
                 (tl paths) space)
    groups space
  = (space + fold_right N.add 0 (map (fun paths => sum_sizes root (tl paths)) groups))%N.
Proof.
  revert space. induction groups as [|g groups IH]; intros space; cbn.
  - lia.
  - rewrite IH, fold_left_add_sizes. lia.
Qed.

(** What [calculate_reclaimable_space] returns; it does not raise. *)
Lemma calculate_reclaimable_space_run (duplicates : dict) (w : world) :
  exists w',
    calculate_reclaimable_space duplicates w
    = (Ok (fold_right N.add 0
             (map (fun paths => sum_sizes (fs w) (tl paths)) (values duplicates))), w')%N
    /\ same_files w w'.
Proof.
  unfold calculate_reclaimable_space.
  match goal with |- context [for_each _ ?body _ _] =>
    destruct (for_each_fold body
                (fun space paths =>
                   fold_left (fun space path => (space + size_or_zero (fs w) path)%N)
                     (tl paths) space)
                (fs w))
      with (l := values duplicates) (s := 0%N) (w := w) as [w' [E S]]
  end.
  - intros paths space w0 Hw0.
    apply (for_each_fold _
             (fun space path => (space + size_or_zero (fs w) path)%N) (fs w));
      [|exact Hw0].
    intros path space0 w1 Hw1. run. unfold size_or_zero. rewrite Hw1.
    destruct (getsize (fs w) path) as [n|e]; rewrite ?N.add_0_r;
      (eexists; split; [reflexivity|]; split; cbn; congruence).
  - reflexivity.
  - exists w'. split; [|exact S]. rewrite E, fold_left_add_groups. reflexivity.
Qed.

Lemma sum_sizes_uniform (root : node) (paths : list string) (s : N) :
  (forall p, In p paths -> getsize root p = Ok s) ->
  sum_sizes root paths = (N.of_nat (List.length paths) * s)%N.
Proof.
  induction paths as [|p paths IH]; intros H; [reflexivity|].
  unfold sum_sizes in *. cbn [map fold_right List.length].
  rewrite IH by (intros q Hq; apply H; right; exact Hq).
  unfold size_or_zero. rewrite (H p) by (left; reflexivity). lia.
Qed.

(** C4. [calculate_reclaimable_space] returns the sum, over the groups,
    of the sizes of all members but the first, a member whose size cannot
    be had counting for zero; it never raises.  A group of [n] files of
    size [s] each gives [(n - 1) * s]; in general a group gives the sum of
    all its sizes less the size of its first member. *)
Theorem calculate_reclaimable_space_sum (duplicates : dict) (w : world) :
  (exists w',
     calculate_reclaimable_space duplicates w
     = (Ok (fold_right N.add 0
              (map (fun paths => sum_sizes (fs w) (tl paths)) (values duplicates))), w')%N
     /\ same_files w w')
  /\ (forall h first rest s,
        (forall p, In p (first :: rest) -> getsize (fs w) p = Ok s) ->
        exists w',
          calculate_reclaimable_space [(h, first :: rest)] w
          = (Ok ((N.of_nat (List.length (first :: rest)) - 1) * s), w')%N)
  /\ (forall h first rest,
        exists w',
          calculate_reclaimable_space [(h, first :: rest)] w
          = (Ok (sum_sizes (fs w) (first :: rest) - size_or_zero (fs w) first), w')%N)
  /\ (forall path e, getsize (fs w) path = Raise e -> size_or_zero (fs w) path = 0%N).
Proof.
  split; [apply calculate_reclaimable_space_run|]. split; [|split].
  - intros h first rest s H.
    destruct (calculate_reclaimable_space_run [(h, first :: rest)] w) as [w' [E _]].
    exists w'. rewrite E. cbn [values map snd tl fold_right].
    rewrite (sum_sizes_uniform (fs w) rest s)
      by (intros p Hp; apply H; right; exact Hp).
    do 2 f_equal. cbn [List.length]. lia.
  - intros h first rest.
    destruct (calculate_reclaimable_space_run [(h, first :: rest)] w) as [w' [E _]].
    exists w'. rewrite E. cbn [values map snd tl fold_right].
    do 2 f_equal. unfold sum_sizes. cbn [map fold_right]. lia.
  - intros path e H. unfold size_or_zero. rewrite H. reflexivity.
Qed.

End Space.

(** ** [save_results_to_csv] *)

Section Report.

Lemma append_nil_r (s : string) : s ++ "" = s.
Proof. induction s as [|c s IH]; cbn; [reflexivity | rewrite IH; reflexivity]. Qed.

Lemma append_assoc (s t u : string) : (s ++ t) ++ u = s ++ (t ++ u).
Proof. induction s as [|c s IH]; cbn; [reflexivity | rewrite IH; reflexivity]. Qed.

Lemma csv_text_app (rows rows' : list (list string)) :
  csv_text (rows ++ rows') = csv_text rows ++ csv_text rows'.
Proof.
  unfold csv_text. induction rows as [|r rows IH]; cbn; [reflexivity|].
  rewrite IH, append_assoc. reflexivity.
Qed.

(** Writing rows one after the other adds their text to the file. *)
Lemma writerow_paths (f : writer) (hash_val : string) (paths : list string) :
  fold_left (fun writer path => writerow writer [hash_val; path]) paths f
  = mkWriter (w_path f)
      (w_text f ++ csv_text (map (fun path => [hash_val; path]) paths)).
Proof.
  revert f. induction paths as [|p paths IH]; intros f; cbn.
  - rewrite append_nil_r. destruct f; reflexivity.
  - rewrite IH. unfold writerow. cbn. rewrite append_assoc. reflexivity.
Qed.

Lemma writerow_groups (f : writer) (d : dict) :
  fold_left
    (fun writer '(hash_val, paths) =>
       fold_left (fun writer path => writerow writer [hash_val; path]) paths writer)
    d f
  = mkWriter (w_path f)
      (w_text f
         ++ csv_text (flat_map (fun '(h, paths) => map (fun path => [h; path]) paths) d)).
Proof.
  revert f. induction d as [|[h paths] d IH]; intros f; cbn.
  - rewrite append_nil_r. destruct f; reflexivity.
  - rewrite IH, writerow_paths. cbn. rewrite csv_text_app, append_assoc. reflexivity.
Qed.

Lemma assoc_replace_entry (name : string) (n : node) (entries : list (string * node)) :
  assoc name entries <> None ->
  assoc name (replace_entry name n entries) = Some n.
Proof.
  induction entries as [|[m old] rest IH]; cbn; [congruence|].
  destruct (String.eqb m name) eqn:E; cbn; rewrite E; [reflexivity | exact IH].
Qed.

Lemma assoc_app_new {A : Type} (name : string) (a : A) (entries : list (string * A)) :
  assoc name entries = None ->
  assoc name (entries ++ [(name, a)]) = Some a.
Proof.
  induction entries as [|[m old] rest IH]; cbn.
  - rewrite String.eqb_refl. reflexivity.
  - destruct (String.eqb m name); [discriminate | exact IH].
Qed.

(** What was stored at a path is found there. *)
Lemma lookup_store (cs : list string) :
  forall (n n' : node) (f : file),
    store n cs f = Ok n' -> lookup n' cs = Some (File f).
Proof.
  induction cs as [|c cs IH]; intros n n' f H.
  - destruct n; cbn in H; [|discriminate]. inversion H. reflexivity.
  - destruct n as [f0|size listable entries]; cbn in H; [discriminate|].
    destruct (assoc c entries) as [child|] eqn:E.
    + destruct (store child cs f) as [child'|e] eqn:Es; [|discriminate].
      inversion H; subst n'. cbn.
      rewrite assoc_replace_entry by congruence. apply (IH _ _ _ Es).
    + destruct cs; [|discriminate]. inversion H; subst n'. cbn.
      rewrite (assoc_app_new _ _ _ E). reflexivity.
Qed.

(** A path that could be written once can be written again. *)
Lemma store_again (cs : list string) :
  forall (n n1 : node) (f1 f2 : file),
    store n cs f1 = Ok n1 -> exists n2, store n1 cs f2 = Ok n2.
Proof.
  induction cs as [|c cs IH]; intros n n1 f1 f2 H.
  - destruct n; cbn in H; [|discriminate]. inversion H. eexists. reflexivity.
  - destruct n as [f0|size listable entries]; cbn in H; [discriminate|].
    destruct (assoc c entries) as [child|] eqn:E.
    + destruct (store child cs f1) as [child1|e] eqn:Es; [|discriminate].
      inversion H; subst n1. cbn.
      rewrite assoc_replace_entry by congruence.
      destruct (IH _ _ _ f2 Es) as [child2 E2]. rewrite E2. eexists. reflexivity.
    + destruct cs; [|discriminate]. inversion H; subst n1. cbn.
      rewrite (assoc_app_new _ _ _ E). eexists. reflexivity.
Qed.

Lemma content_write_file (root root' : node) (p : string) (data : list byte) :
  write_file root p data = Ok root' -> content root' p = Some data.
Proof.
  unfold write_file, content, resolve.
  destruct (String.eqb p ""); [discriminate|].
  intros H. rewrite (lookup_store _ _ _ _ H). reflexivity.
Qed.

Lemma write_file_again (root root1 : node) (p : string) (data1 data2 : list byte) :
  write_file root p data1 = Ok root1 ->
  exists root2, write_file root1 p data2 = Ok root2.
Proof.
  unfold write_file. destruct (String.eqb p ""); [discriminate|].
  apply store_again.
Qed.

(** What [save_results_to_csv] does when the file can be opened. *)
Lemma save_results_to_csv_run (duplicates : dict) (filename : string) (w : world)
    (root1 : node) :
  write_file (fs w) filename [] = Ok root1 ->
  exists root2,
    write_file root1 filename (list_byte_of_string (csv_text (report_rows duplicates)))
    = Ok root2
    /\ save_results_to_csv duplicates filename w
       = (Ok tt, mkWorld root2 (stdin w) (log w ++ [EvOpenWrite filename])).
Proof.
  intros Hopen.
  destruct (write_file_again _ _ _ _
              (list_byte_of_string (csv_text (report_rows duplicates))) Hopen)
    as [root2 Hclose].
  exists root2. split; [exact Hclose|].
  unfold save_results_to_csv, open_w, close, bind, emit. cbn [fs stdin log].
  rewrite Hopen. rewrite writerow_groups. cbn [w_path w_text writerow fs stdin log].
  match goal with |- context [list_byte_of_string ?text] =>
    replace text with (csv_text (report_rows duplicates)) by reflexivity
  end.
  rewrite Hclose. reflexivity.
Qed.

(** When the file cannot be opened the exception goes to the caller and
    nothing is written. *)
Lemma save_results_to_csv_fails (duplicates : dict) (filename : string) (w : world)
    (e : exn) :
  write_file (fs w) filename [] = Raise e ->
  save_results_to_csv duplicates filename w
  = (Raise e, mkWorld (fs w) (stdin w) (log w ++ [EvOpenWrite filename])).
Proof.
  intros Hopen. unfold save_results_to_csv, open_w, bind, emit. cbn [fs stdin log].
  rewrite Hopen. reflexivity.
Qed.



End Report.

(** ** [main] *)

Section Main.

Variable sha256 : list byte -> N.

(** C2. Given a path that is not an existing directory, [main] stops at
    the validation: it prints that the path is not valid and returns.  The
    tree is not walked, no file is opened for reading or writing, and the
    file system is left as it was. *)
Theorem main_rejects_invalid_directory (w : world) (line : string) (rest : list string) :
  stdin w = line :: rest ->
  isdir (fs w) (strip line) = false ->
  main sha256 w
  = (Ok tt,
     mkWorld (fs w) rest
       (log w ++ [EvInput "Introduce el directorio a analizar: ";
                  EvIsdir (strip line);
                  EvPrint "Ruta no válida."])).
Proof.
  intros Hin Hdir.
  unfold main, input, os_path_isdir, print, bind, emit. cbn [fs stdin log].
  rewrite Hin. cbn [fs stdin log]. rewrite Hdir. cbn [negb fs stdin log].
  rewrite <- !app_assoc. reflexivity.
Qed.

End Main.

(** * Further properties *)

(** ** What the loops leave in the log *)

(** A loop whose body computes [f] and adds the events [g x] to the log,
    leaving the files alone, is a fold that adds the events in order. *)
Lemma for_each_trace {A S : Type} (body : A -> S -> M S) (f : S -> A -> S)
    (g : A -> list event) (root : node) :
  (forall x s w, fs w = root ->
     body x s w = (Ok (f s x), mkWorld (fs w) (stdin w) (log w ++ g x))) ->
  forall l s w, fs w = root ->
    for_each l body s w
    = (Ok (fold_left f l s), mkWorld (fs w) (stdin w) (log w ++ flat_map g l)).
Proof.
  intros Hbody l. induction l as [|x l IH]; intros s w Hw.
  - cbn. unfold ret. rewrite app_nil_r. destruct w; reflexivity.
  - cbn [for_each flat_map fold_left]. unfold bind. rewrite (Hbody x s w Hw).
    rewrite IH by exact Hw. cbn [fs stdin log]. rewrite app_assoc. reflexivity.
Qed.

Lemma flat_map_map {A B C : Type} (f : B -> list C) (j : A -> B) (l : list A) :
  flat_map f (map j l) = flat_map (fun x => f (j x)) l.
Proof. induction l as [|x l IH]; cbn; [reflexivity | rewrite IH; reflexivity]. Qed.

Lemma flat_map_flat_map {A B C : Type} (f : B -> list C) (h : A -> list B) (l : list A) :
  flat_map f (flat_map h l) = flat_map (fun x => flat_map f (h x)) l.
Proof.
  induction l as [|x l IH]; cbn; [reflexivity|].
  rewrite flat_map_app, IH. reflexivity.
Qed.

Section Traces.

Variable sha256 : list byte -> N.

Lemma compute_file_hash_trace (path : string) (w : world) :
  compute_file_hash sha256 path default_block_size w
  = (Ok (digest_of sha256 (fs w) path),
     mkWorld (fs w) (stdin w) (log w ++ hash_events sha256 (fs w) path)).
Proof.
  rewrite compute_file_hash_run. unfold digest_of, hash_events.
  destruct (file_digest sha256 (fs w) path default_block_size) as [h|e].
  - reflexivity.
  - rewrite <- app_assoc. reflexivity.
Qed.

(** [find_duplicate_files], result and log. *)
Lemma find_duplicate_files_trace (base_directory : string) (w : world) :
  find_duplicate_files sha256 base_directory w
  = (Ok (duplicates_of sha256 (fs w) base_directory),
     mkWorld (fs w) (stdin w)
       (log w ++ EvWalk base_directory
              :: flat_map (hash_events sha256 (fs w)) (enumerate (fs w) base_directory))).
Proof.
  unfold find_duplicate_files, os_walk, emit. do 3 (unfold bind at 1). cbn [fs stdin log].
  set (w1 := mkWorld (fs w) (stdin w) (log w ++ [EvWalk base_directory])).
  match goal with |- context [for_each (walk _ _) ?body _ _] =>
    rewrite (for_each_trace body
               (fun acc (e : string * list string * list string) =>
                  let '(dirpath, _, filenames) := e in
                  fold_left (file_step sha256 (fs w) dirpath) filenames acc)
               (fun e : string * list string * list string =>
                  let '(dirpath, _, filenames) := e in
                  flat_map (fun x => hash_events sha256 (fs w) (path_join dirpath x))
                    filenames)
               (fs w))
  end.
  - unfold ret. cbn [fs stdin log]. rewrite fst_fold_walk. unfold duplicates_of, enumerate.
    cbn [fst]. subst w1. cbn [fs stdin log]. do 2 f_equal.
    rewrite <- app_assoc. cbn [app]. do 2 f_equal.
    rewrite flat_map_flat_map. apply flat_map_ext.
    intros [[dirpath ds] filenames]. rewrite flat_map_map. reflexivity.
  - intros [[dirpath ds] filenames] s w0 Hw0.
    apply (for_each_trace _ (file_step sha256 (fs w) dirpath)
             (fun x => hash_events sha256 (fs w) (path_join dirpath x)) (fs w));
      [|exact Hw0].
    intros x [d t] w3 Hw3.
    unfold bind. rewrite compute_file_hash_trace. rewrite Hw3.
    unfold file_step, file_under. cbn [fst snd].
    destruct (digest_of sha256 (fs w) (path_join dirpath x)) as [h|] eqn:E.
    + pose proof (digest_of_not_empty sha256 _ _ _ E) as Hne.
      apply String.eqb_neq in Hne. cbn. rewrite Hne. cbn. unfold ret.
      rewrite <- Hw3. reflexivity.
    + unfold ret. rewrite <- Hw3. reflexivity.
  - reflexivity.
Qed.

End Traces.

(** [calculate_reclaimable_space], result and log. *)
Lemma calculate_reclaimable_space_trace (duplicates : dict) (w : world) :
  calculate_reclaimable_space duplicates w
  = (Ok (reclaimable (fs w) duplicates),
     mkWorld (fs w) (stdin w)
       (log w ++ flat_map (fun paths => flat_map (size_events (fs w)) (tl paths))
                   (values duplicates))).
Proof.
  unfold calculate_reclaimable_space.
  match goal with |- context [for_each _ ?body _ _] =>
    rewrite (for_each_trace body
               (fun space paths =>
                  fold_left (fun space path => (space + size_or_zero (fs w) path)%N)
                    (tl paths) space)
               (fun paths => flat_map (size_events (fs w)) (tl paths))
               (fs w))
  end.
  - rewrite fold_left_add_groups. reflexivity.
  - intros paths space w0 Hw0.
    apply (for_each_trace _
             (fun space path => (space + size_or_zero (fs w) path)%N)
             (size_events (fs w)) (fs w)); [|exact Hw0].
    intros path space0 w1 Hw1.
    rewrite <- Hw1. unfold size_or_zero, size_events.
    cbv beta iota zeta delta [try_except bind os_path_getsize emit print ret].
    cbn [fs stdin log].
    destruct (getsize (fs w1) path) as [n|e]; cbn [fs stdin log].
    + reflexivity.
    + rewrite N.add_0_r, <- app_assoc. reflexivity.
  - reflexivity.
Qed.

(** [save_results_to_csv], result and world. *)
Lemma save_results_to_csv_trace (duplicates : dict) (filename : string) (w : world) :
  save_results_to_csv duplicates filename w
  = (match write_file (fs w) filename [] with
     | Ok _ => Ok tt
     | Raise e => Raise e
     end,
     mkWorld (report_written (fs w) duplicates filename) (stdin w)
       (log w ++ [EvOpenWrite filename])).
Proof.
  unfold report_written.
  destruct (write_file (fs w) filename []) as [root1|e] eqn:Hopen.
  - destruct (save_results_to_csv_run duplicates filename w root1 Hopen)
      as [root2 [Hclose Hrun]].
    rewrite Hrun, Hclose. reflexivity.
  - apply save_results_to_csv_fails. exact Hopen.
Qed.

(** ** The whole run, from the prompt and from the window *)

Section Pipeline.

Variable sha256 : list byte -> N.

(** [main] on a directory that passes the validation. *)
Lemma main_run (w : world) (line : string) (rest : list string) :
  stdin w = line :: rest ->
  isdir (fs w) (strip line) = true ->
  let root := fs w in
  let directory := strip line in
  let d := duplicates_of sha256 root directory in
  let head :=
    (log w ++ [EvInput "Introduce el directorio a analizar: ";
               EvIsdir directory;
               EvPrint "Analizando archivos..."]
           ++ analysis_events sha256 root directory)%list in
  main sha256 w
  = match write_file root default_filename [] with
    | Raise e => (Raise e, mkWorld root rest head)
    | Ok _ =>
        let written := report_written root d default_filename in
        let done :=
          [EvPrint (newline ++ "✅ Análisis completado.");
           EvPrint ("Ficheros duplicados encontrados: "
                    ++ str_int (total_duplicates d))] in
        match format_size (reclaimable root d) with
        | Raise e => (Raise e, mkWorld written rest (head ++ done))
        | Ok size =>
            (Ok tt,
             mkWorld written rest
               (head ++ done
                  ++ [EvPrint ("Espacio potencialmente liberable: " ++ str_size size);
                      EvPrint "Resultado exportado a 'duplicados.csv'."]))
        end
    end.
Proof.
  intros Hin Hdir root directory d head.
  unfold main, input, os_path_isdir, print, lift, bind, emit. cbn [fs stdin log].
  rewrite Hin. cbn [fs stdin log]. rewrite Hdir. cbn [negb fs stdin log].
  rewrite find_duplicate_files_trace. cbn [fs stdin log].
  rewrite calculate_reclaimable_space_trace. cbn [fs stdin log].
  rewrite save_results_to_csv_trace. cbn [fs stdin log].
  subst head d directory root. unfold analysis_events, total_duplicates, report_written.
  destruct (write_file (fs w) default_filename []) as [root1|e];
    [destruct (format_size _) as [size|e]|];
    cbn [fs stdin log]; rewrite <- !app_assoc; cbn [app]; reflexivity.
Qed.

(** [analyze_duplicates]: the same three passes, without a validation. *)
Lemma analyze_duplicates_run (self : gui) (directory : string) (w : world) :
  let root := fs w in
  let d := duplicates_of sha256 root directory in
  let events := (log w ++ analysis_events sha256 root directory)%list in
  analyze_duplicates sha256 self directory w
  = match write_file root default_filename [] with
    | Raise e => (Raise e, mkWorld root (stdin w) events)
    | Ok _ =>
        let written := report_written root d default_filename in
        match format_size (reclaimable root d) with
        | Raise e => (Raise e, mkWorld written (stdin w) events)
        | Ok size =>
            (Ok (config_status self (result_message (total_duplicates d) size)),
             mkWorld written (stdin w) events)
        end
    end.
Proof.
  intros root d events.
  unfold analyze_duplicates, lift, bind.
  rewrite find_duplicate_files_trace. cbn [fs stdin log].
  rewrite calculate_reclaimable_space_trace. cbn [fs stdin log].
  rewrite save_results_to_csv_trace. cbn [fs stdin log].
  subst events d root. unfold analysis_events, total_duplicates, report_written.
  destruct (write_file (fs w) default_filename []) as [root1|e];
    [destruct (format_size _) as [size|e]|];
    cbn [fs stdin log]; rewrite <- !app_assoc; cbn [app]; reflexivity.
Qed.

End Pipeline.

(** ** More on [format_size] *)

Section FormatSizeMore.

Local Open Scope Z_scope.

(** Rounding looks at the value of a fraction, not at how it is written. *)
Lemma round_half_even_Qeq (x y : Q) : (x == y)%Q -> Fmt.round_half_even x = Fmt.round_half_even y.
Proof.
  destruct x as [n1 d1], y as [n2 d2]. unfold Qeq, Fmt.round_half_even. cbn [Qnum Qden].
  intros H.
  pose proof (Z.div_mod n1 (Zpos d1) ltac:(lia)) as E1.
  pose proof (Z.mod_pos_bound n1 (Zpos d1) ltac:(lia)) as B1.
  set (q := n1 / Zpos d1) in *. set (r1 := n1 mod Zpos d1) in *.
  set (r2 := n2 - q * Zpos d2).
  assert (Hr : r2 * Zpos d1 = r1 * Zpos d2) by (subst r2; nia).
  assert (B2 : 0 <= r2 < Zpos d2) by nia.
  assert (Hq : n2 / Zpos d2 = q).
  { symmetry. apply (Z.div_unique n2 (Zpos d2) q r2); [left; exact B2 | subst r2; lia]. }
  assert (Hm : n2 mod Zpos d2 = r2).
  { symmetry. apply (Z.mod_unique n2 (Zpos d2) q r2); [left; exact B2 | subst r2; lia]. }
  rewrite Hq, Hm.
  assert (Hc : (2 * r1 ?= Zpos d1) = (2 * r2 ?= Zpos d2)).
  { destruct (Z.compare_spec (2 * r1) (Zpos d1)), (Z.compare_spec (2 * r2) (Zpos d2)); try reflexivity; nia. }
  rewrite Hc. reflexivity.
Qed.

Lemma format_2f_Qeq (x y : Q) : (x == y)%Q -> Fmt.format_2f x = Fmt.format_2f y.
Proof.
  intros H. unfold Fmt.format_2f.
  assert (Hr : Fmt.round_half_even (Qabs x * 100) = Fmt.round_half_even (Qabs y * 100)).
  { apply round_half_even_Qeq. rewrite H. reflexivity. }
  rewrite Hr.
  assert (Hs : (Qnum x <? 0) = (Qnum y <? 0)).
  { destruct x as [n1 d1], y as [n2 d2]. unfold Qeq in H. cbn [Qnum Qden] in *.
    destruct (Z.ltb_spec n1 0), (Z.ltb_spec n2 0); try reflexivity; nia. }
  rewrite Hs. reflexivity.
Qed.

Lemma pow_1024_pos (j : nat) : 0 < 1024 ^ Z.of_nat j.
Proof. apply Z.pow_pos_nonneg; lia. Qed.

Lemma scaled_ge_1024 (j : nat) (x : Z) :
  1024 ^ Z.of_nat (S j) <= x -> (inject_Z 1024 <= scaled j (inject_Z x))%Q.
Proof.
  intros H. rewrite scaled_spec.
  apply Qle_shift_div_l.
  - change 0%Q with (inject_Z 0). rewrite <- Zlt_Qlt. apply pow_1024_pos.
  - rewrite <- inject_Z_mult, <- Zle_Qle.
    rewrite Nat2Z.inj_succ, Z.pow_succ_r in H by lia. exact H.
Qed.

Lemma scaled_lt_1024 (k : nat) (x : Z) :
  x < 1024 ^ Z.of_nat (S k) -> (scaled k (inject_Z x) < inject_Z 1024)%Q.
Proof.
  intros H. rewrite scaled_spec.
  apply Qlt_shift_div_r.
  - change 0%Q with (inject_Z 0). rewrite <- Zlt_Qlt. apply pow_1024_pos.
  - rewrite <- inject_Z_mult, <- Zlt_Qlt.
    rewrite Nat2Z.inj_succ, Z.pow_succ_r in H by lia. exact H.
Qed.

(** The unit is the one of the range the byte count falls in. *)
Lemma format_size_in_unit (bytes : N) (k : nat) :
  (k < 5)%nat ->
  k = 0%nat \/ 1024 ^ Z.of_nat k <= Z.of_N bytes ->
  Z.of_N bytes < 1024 ^ Z.of_nat (S k) ->
  format_size bytes
  = Ok (Some (Fmt.format_2f (scaled k (inject_Z (Z.of_N bytes))) ++ " " ++ nth k units "")%string).
Proof.
  intros Hk Hlow Hhigh. unfold format_size.
  assert (Hlt := scaled_lt_1024 k _ Hhigh).
  apply format_size_loop_stops.
  - exact Hk.
  - exact (format_size_in_range bytes k Hk Hlt).
  - exact Hlt.
  - intros j Hj. apply scaled_ge_1024.
    destruct Hlow as [->|Hlow]; [lia|].
    eapply Z.le_trans; [|exact Hlow].
    apply Z.pow_le_mono_r; lia.
Qed.

(** X1. [format_size] returns a string exactly for the byte counts below
    [1024^5]; from there on it returns [None] or raises. *)
Theorem format_size_returns_text_iff (bytes : N) :
  (exists text, format_size bytes = Ok (Some text)) <-> (bytes < 1024 ^ 5)%N.
Proof.
  split.
  - intros [text H].
    destruct (N.lt_ge_cases bytes (1024 ^ 5)) as [Hlt|Hge]; [exact Hlt|].
    exfalso.
    destruct (format_size_loop_falls_through units (inject_Z (Z.of_N bytes))) as [E|E].
    + rewrite <- Zle_Qle. change (List.length units) with 5%nat.
      change (1024 ^ Z.of_nat 5) with (Z.of_N (1024 ^ 5)). lia.
    + unfold format_size in H. congruence.
    + unfold format_size in H. congruence.
  - intros Hlt.
    assert (Hb : Z.of_N bytes < 1024 ^ Z.of_nat 5).
    { change (1024 ^ Z.of_nat 5) with (Z.of_N (1024 ^ 5)). lia. }
    destruct (Z.lt_ge_cases (Z.of_N bytes) (1024 ^ Z.of_nat 1)) as [H1|H1];
      [eexists; apply (format_size_in_unit bytes 0); [lia | left; reflexivity | exact H1]|].
    destruct (Z.lt_ge_cases (Z.of_N bytes) (1024 ^ Z.of_nat 2)) as [H2|H2];
      [eexists; apply (format_size_in_unit bytes 1); [lia | right; exact H1 | exact H2]|].
    destruct (Z.lt_ge_cases (Z.of_N bytes) (1024 ^ Z.of_nat 3)) as [H3|H3];
      [eexists; apply (format_size_in_unit bytes 2); [lia | right; exact H2 | exact H3]|].
    destruct (Z.lt_ge_cases (Z.of_N bytes) (1024 ^ Z.of_nat 4)) as [H4|H4];
      [eexists; apply (format_size_in_unit bytes 3); [lia | right; exact H3 | exact H4]|].
    eexists; apply (format_size_in_unit bytes 4); [lia | right; exact H4 | exact Hb].
Qed.

(** X2. For a byte count from [1024^k] up to [1024^(k+1)], with [k] from
    0 to 4 (and from 0 on for [k = 0]), the text is the quotient
    [bytes / 1024^k], rounded to two decimals with ties to even, then a
    space and the unit number [k]. *)
Theorem format_size_closed_form (bytes : N) (k : nat) :
  (k < 5)%nat ->
  k = 0%nat \/ (1024 ^ N.of_nat k <= bytes)%N ->
  (bytes < 1024 ^ N.of_nat (S k))%N ->
  format_size bytes
  = Ok (Some (Fmt.format_2f (inject_Z (Z.of_N bytes) / inject_Z (1024 ^ Z.of_nat k))%Q
              ++ " " ++ nth k units "")%string).
Proof.
  intros Hk Hlow Hhigh.
  assert (Hpow : forall j : nat, Z.of_N (1024 ^ N.of_nat j) = 1024 ^ Z.of_nat j).
  { intros j. rewrite N2Z.inj_pow, nat_N_Z. reflexivity. }
  rewrite (format_size_in_unit bytes k Hk).
  - rewrite (format_2f_Qeq _ _ (scaled_spec k (inject_Z (Z.of_N bytes)))). reflexivity.
  - destruct Hlow as [->|Hlow]; [left; reflexivity | right].
    rewrite <- Hpow. lia.
  - rewrite <- Hpow. lia.
Qed.

(** X3. Below 1024 bytes the text is the count itself, [.00] and the unit
    [B]. *)
Theorem format_size_small (bytes : N) :
  (bytes < 1024)%N ->
  format_size bytes = Ok (Some (Fmt.decimal (Z.of_N bytes) ++ ".00 B")%string).
Proof.
  intros H. rewrite (format_size_in_unit bytes 0); [|lia|left; reflexivity|cbn; lia].
  cbn [scaled nth units]. do 2 f_equal.
  unfold Fmt.format_2f, Fmt.round_half_even.
  set (n := Z.of_N bytes). assert (Hn : 0 <= n) by (subst n; lia).
  cbn [inject_Z Qabs Qnum Qden Qmult].
  rewrite Z.abs_eq by exact Hn.
  replace (n <? 0) with false by (symmetry; apply Z.ltb_ge; exact Hn).
  change (Z.pos (1 * 1)) with 1.
  rewrite Z.div_1_r, Z.mod_1_r. cbn [Z.mul Z.compare].
  rewrite Z.div_mul by discriminate.
  rewrite Z.mod_mul by discriminate.
  replace ((n * 100) mod 10) with 0
    by (symmetry; replace (n * 100) with (n * 10 * 10) by lia;
        apply Z.mod_mul; discriminate).
  change (Fmt.digit (0 / 10)) with "0"%string.
  change (Fmt.digit 0) with "0"%string.
  cbn [append]. rewrite append_assoc. reflexivity.
Qed.

End FormatSizeMore.

(** ** More on [compute_file_hash] *)

Lemma read_chunks_empty_chunk (f : reader) (block_size : Z) (fed : list byte) :
  (exists f', read f block_size = Ok ([], f')) ->
  read_chunks f block_size fed = Ok fed.
Proof.
  funelim (read_chunks f block_size fed); intros [f0 Hread].
  - reflexivity.
  - congruence.
  - congruence.
Qed.

Lemma read_chunks_block_size_zero (f : reader) (fed : list byte) :
  r_fault f <> Some 0%nat ->
  read_chunks f 0 fed = Ok fed.
Proof.
  intros Hfault. apply read_chunks_empty_chunk.
  unfold read. destruct (r_fault f) as [[|k]|]; [contradiction| |];
    eexists; reflexivity.
Qed.

Section HashingMore.

Variable sha256 : list byte -> N.


(** X5. With block size 0 the first read returns no bytes, the loop ends
    at once, and the result is the digest of the empty message whatever
    the file holds. *)
Theorem compute_file_hash_block_size_zero (path : string) (w : world) (f : file) :
  resolve (fs w) path = Some (File f) ->
  f_fault f <> Some 0%nat ->
  f_fault f <> Some 1%nat ->
  compute_file_hash sha256 path 0 w
  = (Ok (Some (hexdigest sha256 [])),
     mkWorld (fs w) (stdin w) (log w ++ [EvOpenRead path])).
Proof.
  intros Hres H0 H1. rewrite compute_file_hash_run.
  unfold file_digest, open_file. rewrite Hres.
  destruct (f_fault f) as [[|[|k]]|]; try contradiction;
    rewrite read_chunks_block_size_zero by (cbn; discriminate); reflexivity.
Qed.


End HashingMore.

(** ** More on [find_duplicate_files] and [calculate_reclaimable_space] *)

Section ScanMore.

Variable sha256 : list byte -> N.

(** X7. The groups [find_duplicate_files] returns are, for each digest
    that two or more visited paths have, those paths in the order they
    were visited; the first one of a group is the first one visited. *)
Theorem find_duplicate_files_in_visiting_order (base_directory : string) (w : world) :
  exists d w',
    find_duplicate_files sha256 base_directory w = (Ok d, w')
    /\ forall h paths,
         In (h, paths) d
         <-> paths = filter (has_digest sha256 (fs w) h)
                       (enumerate (fs w) base_directory)
             /\ 2 <= List.length paths.
Proof.
  rewrite find_duplicate_files_trace. do 2 eexists. split; [reflexivity|].
  intros h paths. unfold duplicates_of. apply in_result.
Qed.

(** X8. [find_duplicate_files] walks the tree once and opens every
    visited path once, in order, for reading; it prints a line exactly for
    the paths that cannot be hashed, and does nothing else: the files and
    the pending input are as before. *)
Theorem find_duplicate_files_effects (base_directory : string) (w : world) :
  snd (find_duplicate_files sha256 base_directory w)
  = mkWorld (fs w) (stdin w)
      (log w ++ EvWalk base_directory
             :: flat_map (hash_events sha256 (fs w)) (enumerate (fs w) base_directory)).
Proof. rewrite find_duplicate_files_trace. reflexivity. Qed.

(** X9. A path is in one group at most; and when the walk visits no path
    twice, no group lists a path twice. *)
Theorem find_duplicate_files_no_repeats (base_directory : string) (w : world) :
  NoDup (enumerate (fs w) base_directory) ->
  exists d w',
    find_duplicate_files sha256 base_directory w = (Ok d, w')
    /\ (forall h paths, In (h, paths) d -> NoDup paths)
    /\ (forall h1 paths1 h2 paths2 p,
          In (h1, paths1) d -> In (h2, paths2) d ->
          In p paths1 -> In p paths2 ->
          (h1, paths1) = (h2, paths2)).
Proof.
  intros Hnd. rewrite find_duplicate_files_trace. do 2 eexists.
  split; [reflexivity|]. unfold duplicates_of. split.
  - intros h paths Hin. apply in_result in Hin. destruct Hin as [-> _].
    apply NoDup_filter. exact Hnd.
  - intros h1 paths1 h2 paths2 p H1 H2 Hp1 Hp2.
    apply in_result in H1. apply in_result in H2.
    destruct H1 as [-> _]. destruct H2 as [-> _].
    apply filter_In in Hp1. apply filter_In in Hp2.
    destruct Hp1 as [_ Hp1]. destruct Hp2 as [_ Hp2].
    apply has_digest_true in Hp1. apply has_digest_true in Hp2.
    assert (h1 = h2) by congruence. subst h2. reflexivity.
Qed.

(** Every path of a group names a regular file, whose size can be had. *)
Lemma members_are_files (root : node) (base_directory h : string) (paths : list string)
    (p : string) :
  In (h, paths) (duplicates_of sha256 root base_directory) ->
  In p paths ->
  exists c,
    content root p = Some c
    /\ h = hexdigest sha256 c
    /\ getsize root p = Ok (N.of_nat (List.length c)).
Proof.
  intros Hin Hp. unfold duplicates_of in Hin. apply in_result in Hin.
  destruct Hin as [-> _]. apply filter_In in Hp. destruct Hp as [_ Hp].
  apply has_digest_true in Hp.
  destruct (digest_of_content sha256 _ _ _ Hp) as [c [Hc Hh]].
  exists c. split; [exact Hc|]. split; [exact Hh|].
  unfold content in Hc. unfold getsize.
  destruct (resolve root p) as [[f|? ? ?]|]; try discriminate.
  inversion Hc. reflexivity.
Qed.



End ScanMore.

Section SpaceMore.

Variable sha256 : list byte -> N.

(** X11. [calculate_reclaimable_space] looks neither at the digests nor
    at the first path of a group: two mappings whose groups agree from the
    second path on give the same result and the same size queries. *)
Theorem calculate_reclaimable_space_ignores_first (d d' : dict) (w : world) :
  map (fun item => tl (snd item)) d = map (fun item => tl (snd item)) d' ->
  calculate_reclaimable_space d w = calculate_reclaimable_space d' w.
Proof.
  intros H. rewrite !calculate_reclaimable_space_trace.
  unfold reclaimable, values. rewrite !flat_map_map, !map_map.
  rewrite <- (map_map (fun item : string * list string => tl (snd item))
                (sum_sizes (fs w)) d).
  rewrite <- (map_map (fun item : string * list string => tl (snd item))
                (sum_sizes (fs w)) d').
  rewrite <- (flat_map_map (flat_map (size_events (fs w)))
                (fun item : string * list string => tl (snd item)) d).
  rewrite <- (flat_map_map (flat_map (size_events (fs w)))
                (fun item : string * list string => tl (snd item)) d').
  rewrite H. reflexivity.
Qed.

Lemma members_are_visited (root : node) (base_directory h : string)
    (paths : list string) (p : string) :
  In (h, paths) (duplicates_of sha256 root base_directory) ->
  In p paths ->
  In p (enumerate root base_directory).
Proof.
  intros Hin Hp. unfold duplicates_of in Hin. apply in_result in Hin.
  destruct Hin as [-> _]. apply filter_In in Hp. apply Hp.
Qed.

(** X12. When no two visited files with different bytes have the same
    digest, the files of a group all have the size of its first one, and
    the space [calculate_reclaimable_space] returns after a scan is, summed
    over the groups, that size times the number of the other members. *)
Theorem reclaimable_space_of_scan (base_directory : string) (w : world) :
  (forall p q cp cq,
     In p (enumerate (fs w) base_directory) ->
     In q (enumerate (fs w) base_directory) ->
     content (fs w) p = Some cp -> content (fs w) q = Some cq ->
     hexdigest sha256 cp = hexdigest sha256 cq -> cp = cq) ->
  exists d w1 w2,
    find_duplicate_files sha256 base_directory w = (Ok d, w1)
    /\ calculate_reclaimable_space d w1
       = (Ok (fold_right N.add 0
                (map (fun paths =>
                        (N.of_nat (List.length paths) - 1)
                        * size_or_zero (fs w) (hd "" paths))
                   (values d)))%N, w2).
Proof.
  intros Hnc. rewrite find_duplicate_files_trace.
  set (d := duplicates_of sha256 (fs w) base_directory).
  do 3 eexists. split; [reflexivity|].
  rewrite calculate_reclaimable_space_trace. cbn [fs stdin log].
  f_equal. f_equal. unfold reclaimable, values. rewrite !map_map. f_equal.
  apply map_ext_in. intros [h paths] Hin. cbn [snd].
  destruct paths as [|first rest]; [reflexivity|]. cbn [tl hd List.length].
  destruct (members_are_files sha256 _ _ _ _ first Hin (or_introl eq_refl))
    as [c [Hc [Hh Hsize]]].
  rewrite (sum_sizes_uniform (fs w) rest (N.of_nat (List.length c))).
  - unfold size_or_zero. rewrite Hsize. lia.
  - intros p Hp.
    destruct (members_are_files sha256 _ _ _ _ p Hin (or_intror Hp))
      as [c' [Hc' [Hh' Hsize']]].
    rewrite Hsize'. do 2 f_equal.
    assert (c' = c); [|congruence].
    apply (Hnc p first c' c).
    + exact (members_are_visited _ _ _ _ p Hin (or_intror Hp)).
    + exact (members_are_visited _ _ _ _ first Hin (or_introl eq_refl)).
    + exact Hc'.
    + exact Hc.
    + congruence.
Qed.

End SpaceMore.

(** ** More on [save_results_to_csv] *)

Section ReportMore.

Lemma assoc_replace_entry_other (name other : string) (n : node)
    (entries : list (string * node)) :
  other <> name ->
  assoc other (replace_entry name n entries) = assoc other entries.
Proof.
  intros Hne. induction entries as [|[m old] rest IH]; cbn; [reflexivity|].
  destruct (String.eqb m name) eqn:E; cbn.
  - apply String.eqb_eq in E. subst m.
    destruct (String.eqb name other) eqn:E'; [|reflexivity].
    apply String.eqb_eq in E'. congruence.
  - rewrite IH. reflexivity.
Qed.

Lemma assoc_app_other {A : Type} (name other : string) (a : A)
    (entries : list (string * A)) :
  other <> name ->
  assoc other (entries ++ [(name, a)]) = assoc other entries.
Proof.
  intros Hne. induction entries as [|[m old] rest IH]; cbn.
  - destruct (String.eqb name other) eqn:E; [|reflexivity].
    apply String.eqb_eq in E. congruence.
  - rewrite IH. reflexivity.
Qed.

(** Storing a file changes what is found at its own path only, and makes
    or unmakes no directory. *)
Lemma store_elsewhere (cs : list string) :
  forall (n n' : node) (f : file) (cs' : list string),
    store n cs f = Ok n' ->
    dir_at n' cs' = dir_at n cs'
    /\ (cs' <> cs -> file_at n' cs' = file_at n cs').
Proof.
  unfold dir_at, file_at.
  induction cs as [|c cs IH]; intros n n' f cs' H.
  - destruct n as [f0|size listable entries]; cbn in H; [|discriminate].
    inversion H; subst n'. destruct cs' as [|c' cs']; cbn.
    + split; [reflexivity | congruence].
    + split; reflexivity.
  - destruct n as [f0|size listable entries]; cbn in H; [discriminate|].
    destruct (assoc c entries) as [child|] eqn:E.
    + destruct (store child cs f) as [child'|e] eqn:Es; [|discriminate].
      inversion H; subst n'. destruct cs' as [|c' cs']; cbn.
      * split; reflexivity.
      * destruct (String.eqb c' c) eqn:Ec.
        -- apply String.eqb_eq in Ec. subst c'.
           rewrite assoc_replace_entry by congruence. rewrite E.
           destruct (IH child child' f cs' Es) as [Hd Hf].
           split; [exact Hd|]. intros Hne. apply Hf. congruence.
        -- apply String.eqb_neq in Ec.
           rewrite (assoc_replace_entry_other _ _ _ _ Ec). split; reflexivity.
    + destruct cs as [|c0 cs0]; [|discriminate]. inversion H; subst n'.
      destruct cs' as [|c' cs']; cbn.
      * split; reflexivity.
      * destruct (String.eqb c' c) eqn:Ec.
        -- apply String.eqb_eq in Ec. subst c'.
           rewrite (assoc_app_new _ _ _ E), E.
           destruct cs' as [|c1 cs1]; cbn; split; try reflexivity. congruence.
        -- apply String.eqb_neq in Ec.
           rewrite (assoc_app_other _ _ _ _ Ec). split; reflexivity.
Qed.

Lemma write_file_elsewhere (root root' : node) (p q : string) (data : list byte) :
  write_file root p data = Ok root' ->
  isdir root' q = isdir root q
  /\ (components q <> components p -> content root' q = content root q).
Proof.
  unfold write_file, isdir, content, resolve.
  destruct (String.eqb p ""); [discriminate|]. intros H.
  destruct (String.eqb q ""); [split; reflexivity|].
  destruct (store_elsewhere _ _ _ _ (components q) H) as [Hd Hf].
  unfold dir_at, file_at in Hd, Hf. split.
  - exact Hd.
  - intros Hne. specialize (Hf Hne).
    destruct (lookup root' (components q)) as [[g'|? ? ?]|],
             (lookup root (components q)) as [[g|? ? ?]|];
      try reflexivity; try discriminate; congruence.
Qed.

(** X13. [save_results_to_csv] writes the report and nothing else: no
    path becomes or ceases to be a directory, and every file but the one
    the report goes to keeps its content; this holds as well when the
    report cannot be opened. *)
Theorem save_results_to_csv_touches_nothing_else
    (duplicates : dict) (filename : string) (w : world) (q : string) :
  isdir (fs (snd (save_results_to_csv duplicates filename w))) q = isdir (fs w) q
  /\ (components q <> components filename ->
      content (fs (snd (save_results_to_csv duplicates filename w))) q
      = content (fs w) q).
Proof.
  rewrite save_results_to_csv_trace. cbn [snd fs]. unfold report_written.
  destruct (write_file (fs w) filename []) as [root1|e] eqn:H1;
    [|split; reflexivity].
  destruct (write_file_elsewhere _ _ _ q _ H1) as [Hd1 Hc1].
  destruct (write_file root1 filename _) as [root2|e] eqn:H2.
  - destruct (write_file_elsewhere _ _ _ q _ H2) as [Hd2 Hc2].
    split; [congruence|]. intros Hne. rewrite Hc2, Hc1 by exact Hne. reflexivity.
  - split; [exact Hd1 | exact Hc1].
Qed.


End ReportMore.

(** ** More on [main] and on the window *)



Section PipelineMore.

Variable sha256 : list byte -> N.

Lemma prints_of_analysis (root : node) (directory text : string) :
  In (EvPrint text) (analysis_events sha256 root directory) ->
  prefix "Error al " text = true.
Proof.
  unfold analysis_events. intros H.
  apply in_app_or in H. destruct H as [H|H].
  - destruct H as [H|H]; [discriminate|].
    apply in_flat_map in H. destruct H as [p [_ H]]. unfold hash_events in H.
    destruct H as [H|H]; [discriminate|].
    destruct (file_digest sha256 root p default_block_size); [contradiction|].
    destruct H as [H|[]]. inversion H. reflexivity.
  - apply in_app_or in H. destruct H as [H|H].
    + apply in_flat_map in H. destruct H as [paths [_ H]].
      apply in_flat_map in H. destruct H as [p [_ H]]. unfold size_events in H.
      destruct H as [H|H]; [discriminate|].
      destruct (getsize root p); [contradiction|].
      destruct H as [H|[]]. inversion H. reflexivity.
    + destruct H as [H|[]]. discriminate.
Qed.


(** X16. When the report cannot be opened, [main] ends with the
    exception of the failed [open]: the file system is as it was, and
    apart from the notice that the analysis started nothing was printed
    but error lines. *)
Theorem main_export_failure (w : world) (line : string) (rest : list string) (e : exn) :
  stdin w = line :: rest ->
  isdir (fs w) (strip line) = true ->
  write_file (fs w) default_filename [] = Raise e ->
  exists w',
    main sha256 w = (Raise e, w')
    /\ fs w' = fs w
    /\ forall text,
         In (EvPrint text) (log w') ->
         In (EvPrint text) (log w)
         \/ text = "Analizando archivos..."
         \/ prefix "Error al " text = true.
Proof.
  intros Hin Hdir Hopen. rewrite (main_run sha256 w line rest Hin Hdir).
  cbv zeta. rewrite Hopen. eexists. split; [reflexivity|]. split; [reflexivity|].
  cbn [log]. intros text H.
  apply in_app_or in H. destruct H as [H|H]; [left; exact H|].
  apply in_app_or in H. destruct H as [H|H].
  - destruct H as [H|[H|[H|[]]]]; try discriminate.
    inversion H. right. left. reflexivity.
  - right. right. apply (prints_of_analysis _ _ _ H).
Qed.

Lemma nothing_visited (root : node) (directory : string) :
  enumerate root directory = [] ->
  duplicates_of sha256 root directory = []
  /\ analysis_events sha256 root directory
     = [EvWalk directory; EvOpenWrite default_filename].
Proof.
  intros H. unfold analysis_events, duplicates_of. rewrite H. split; reflexivity.
Qed.

Lemma header_only (root root1 : node) :
  write_file root default_filename [] = Ok root1 ->
  content (report_written root [] default_filename) default_filename
  = Some (list_byte_of_string ("Hash,Ruta de archivo duplicado" ++ Csv.lineterminator)).
Proof.
  intros Hopen. unfold report_written. rewrite Hopen.
  destruct (write_file_again _ _ _ _
              (list_byte_of_string (csv_text (report_rows []))) Hopen)
    as [root2 Hclose].
  rewrite Hclose. apply (content_write_file _ _ _ _ Hclose).
Qed.

(** X17. On an existing directory under which the walk finds no file,
    [main] writes a report of the header row alone and prints 0 duplicates
    and [0.00 B]. *)
Theorem main_nothing_to_visit (w : world) (line : string) (rest : list string)
    (root1 : node) :
  stdin w = line :: rest ->
  isdir (fs w) (strip line) = true ->
  enumerate (fs w) (strip line) = [] ->
  write_file (fs w) default_filename [] = Ok root1 ->
  exists w',
    main sha256 w = (Ok tt, w')
    /\ content (fs w') default_filename
       = Some (list_byte_of_string
                 ("Hash,Ruta de archivo duplicado" ++ Csv.lineterminator))
    /\ log w'
       = (log w ++ [EvInput "Introduce el directorio a analizar: ";
                    EvIsdir (strip line);
                    EvPrint "Analizando archivos...";
                    EvWalk (strip line);
                    EvOpenWrite default_filename;
                    EvPrint (newline ++ "✅ Análisis completado.");
                    EvPrint "Ficheros duplicados encontrados: 0";
                    EvPrint "Espacio potencialmente liberable: 0.00 B";
                    EvPrint "Resultado exportado a 'duplicados.csv'."])%list.
Proof.
  intros Hin Hdir Hnone Hopen. rewrite (main_run sha256 w line rest Hin Hdir).
  cbv zeta. rewrite Hopen.
  destruct (nothing_visited (fs w) (strip line) Hnone) as [Hd Hev].
  rewrite Hd, Hev.
  change (format_size (reclaimable (fs w) [])) with (format_size 0).
  replace (format_size 0) with (Ok (Some "0.00 B")) by (vm_compute; reflexivity).
  eexists. split; [reflexivity|]. split; [exact (header_only _ _ Hopen)|].
  cbn [log]. rewrite <- !app_assoc. reflexivity.
Qed.

(** X18. From the prompt and from the window the same directory gives
    the same file system: [main] and [analyze_duplicates] write the same
    report, or both leave the tree as it was, and one returns normally
    exactly when the other does. *)
Theorem main_and_window_agree (w_cli w_gui : world) (self : gui)
    (line : string) (rest : list string) :
  stdin w_cli = line :: rest ->
  isdir (fs w_cli) (strip line) = true ->
  fs w_gui = fs w_cli ->
  fs (snd (main sha256 w_cli))
  = fs (snd (analyze_duplicates sha256 self (strip line) w_gui))
  /\ (fst (main sha256 w_cli) = Ok tt
      <-> exists self', fst (analyze_duplicates sha256 self (strip line) w_gui) = Ok self').
Proof.
  intros Hin Hdir Hfs. rewrite (main_run sha256 w_cli line rest Hin Hdir).
  rewrite analyze_duplicates_run. cbv zeta. rewrite Hfs.
  destruct (write_file (fs w_cli) default_filename []) as [root1|e].
  - destruct (format_size _) as [size|e]; cbn [fst snd fs].
    + split; [reflexivity|]. split; [eexists; reflexivity | reflexivity].
    + split; [reflexivity|]. split; [discriminate | intros [s H]; discriminate].
  - cbn [fst snd fs]. split; [reflexivity|].
    split; [discriminate | intros [s H]; discriminate].
Qed.


(** X20. [run_analysis] starts the analysis, on the path of the entry
    with the white space at its ends removed, exactly when that path is an
    existing directory; otherwise it shows one error dialog and starts
    nothing.  Either way it touches no file. *)
Theorem run_analysis_validates (self : gui) (w : world) :
  let directory := strip (path_var self) in
  exists self',
    run_analysis self w
    = (Ok self', mkWorld (fs w) (stdin w) (log w ++ [EvIsdir directory]))
    /\ (isdir (fs w) directory = true ->
        threads_started self' = (threads_started self ++ [directory])%list
        /\ status_label self' = "Analizando archivos..."
        /\ errors_shown self' = errors_shown self)
    /\ (isdir (fs w) directory = false ->
        threads_started self' = threads_started self
        /\ status_label self' = status_label self
        /\ errors_shown self'
           = (errors_shown self
                ++ [("Error", "Por favor selecciona un directorio válido.")])%list).
Proof.
  intros directory. unfold run_analysis, os_path_isdir, bind, emit, ret.
  cbn [fs stdin log]. fold directory.
  destruct (isdir (fs w) directory); cbn [negb];
    eexists; (split; [reflexivity|]); split; intros H; try discriminate;
    repeat split; reflexivity.
Qed.

End PipelineMore.

(** * The detector on the example tree *)

Import Example.

Example sha256_of_docstring :
  hexdigest SHA256.sha256 (list_byte_of_string "123")
  = "a665a45920422f9d417e4867efdc4fb8a04a1f3fff1fa07e998e86f7f7a27ae3".
Proof. vm_compute. reflexivity. Qed.

Example sha256_of_nothing :
  hexdigest SHA256.sha256 []
  = "e3b0c44298fc1c149afbf4c8996fb92427ae41e4649b934ca495991b7852b855".
Proof. vm_compute. reflexivity. Qed.

(** Three files of one content and one of another: one group of three. *)
Example find_duplicate_files_example :
  fst (find_duplicate_files SHA256.sha256 "." (world_of tree "."))
  = Ok [(digest_A, ["./a.txt"; "./d.txt"; "./sub/b.txt"])].
Proof. vm_compute. reflexivity. Qed.

Example main_example :
  let '(r, w) := main SHA256.sha256 (world_of tree " . ") in
  r = Ok tt
  /\ In (EvPrint "Ficheros duplicados encontrados: 2") (log w)
  /\ In (EvPrint "Espacio potencialmente liberable: 8.00 B") (log w).
Proof. vm_compute. intuition. Qed.

(** * The theorems at work *)

Lemma format_size_no_string_from_1024_pow_5_witness :
  (1024 ^ 5 <= 1125899906842624)%N
  /\ (format_size 1125899906842624 = Ok None
      \/ format_size 1125899906842624 = Raise OverflowError).
Proof.
  split.
  - vm_compute. discriminate.
  - apply (format_size_no_string_from_1024_pow_5 1125899906842624).
    vm_compute. discriminate.
Defined.

Lemma format_size_first_unit_below_1024_witness :
  (scaled 1 (inject_Z (Z.of_N 1536)) < inject_Z 1024)%Q
  /\ format_size 1536 = Ok (Some "1.50 KB").
Proof.
  assert (Hlt : (scaled 1 (inject_Z (Z.of_N 1536)) < inject_Z 1024)%Q)
    by (vm_compute; reflexivity).
  split; [exact Hlt|].
  destruct format_size_first_unit_below_1024 as (_ & _ & _ & _ & H).
  apply (H 1536%N 1%nat).
  - lia.
  - exact Hlt.
  - intros j Hj. assert (j = 0)%nat as -> by lia. vm_compute. discriminate.
Defined.

Lemma main_rejects_invalid_directory_witness :
  isdir Example.tree (strip " sub/c.txt ") = false
  /\ main SHA256.sha256 (Example.world_of Example.tree " sub/c.txt ")
     = (Ok tt,
        mkWorld Example.tree []
          [EvInput "Introduce el directorio a analizar: ";
           EvIsdir "sub/c.txt";
           EvPrint "Ruta no válida."]).
Proof.
  split; [vm_compute; reflexivity|].
  apply (main_rejects_invalid_directory SHA256.sha256
           (Example.world_of Example.tree " sub/c.txt ") " sub/c.txt " []).
  - reflexivity.
  - vm_compute. reflexivity.
Defined.

Lemma find_duplicate_files_groups_witness :
  exists d w',
    find_duplicate_files SHA256.sha256 "." (world_of tree ".") = (Ok d, w')
    /\ exists h paths,
         In (h, paths) d
         /\ In "./a.txt" paths /\ In "./sub/b.txt" paths
         /\ ~ In "./sub/c.txt" paths.
Proof.
  destruct (find_duplicate_files_groups SHA256.sha256 "." (world_of tree "."))
    as (d & w' & E & Hnd & Hgroup & Hsame & Hdiff).
  exists d, w'. split; [exact E|].
  destruct (Hsame "./a.txt" "./sub/b.txt" (list_byte_of_string "AAAA"))
    as (h & paths & Hin & Ha & Hb & _).
  - vm_compute. tauto.
  - vm_compute. tauto.
  - discriminate.
  - vm_compute. reflexivity.
  - vm_compute. reflexivity.
  - vm_compute. discriminate.
  - vm_compute. discriminate.
  - exists h, paths. repeat split; try assumption.
    intros Hc.
    apply (Hdiff h paths "./a.txt" "./sub/c.txt"
             (list_byte_of_string "AAAA") (list_byte_of_string "B") Hin).
    + vm_compute. reflexivity.
    + vm_compute. reflexivity.
    + discriminate.
    + vm_compute. discriminate.
    + split; assumption.
Defined.

Lemma calculate_reclaimable_space_sum_witness :
  (forall p, In p ["./a.txt"; "./d.txt"; "./sub/b.txt"] -> getsize tree p = Ok 4%N)
  /\ exists w',
       calculate_reclaimable_space duplicates (world_of tree ".") = (Ok 8%N, w').
Proof.
  assert (H : forall p, In p ["./a.txt"; "./d.txt"; "./sub/b.txt"] ->
                        getsize tree p = Ok 4%N).
  { intros p [<-|[<-|[<-|[]]]]; vm_compute; reflexivity. }
  split; [exact H|].
  destruct (calculate_reclaimable_space_sum duplicates (world_of tree "."))
    as (_ & Huniform & _ & _).
  exact (Huniform digest_A "./a.txt" ["./d.txt"; "./sub/b.txt"] 4%N H).
Defined.



Lemma find_duplicate_files_order_independent_witness :
  enumerate tree "." <> enumerate tree_listed_otherwise "."
  /\ exists d1 w1' d2 w2',
       find_duplicate_files SHA256.sha256 "." (world_of tree ".") = (Ok d1, w1')
       /\ find_duplicate_files SHA256.sha256 "." (world_of tree_listed_otherwise ".")
          = (Ok d2, w2')
       /\ (forall h, In h (map fst d1) <-> In h (map fst d2))
       /\ (forall h, Permutation (group d1 h) (group d2 h)).
Proof.
  split; [vm_compute; discriminate|].
  apply (find_duplicate_files_order_independent SHA256.sha256 "."
           (world_of tree ".") (world_of tree_listed_otherwise ".")).
  - vm_compute. apply perm_swap.
  - intros p Hp. vm_compute in Hp.
    destruct Hp as [<-|[<-|[<-|[<-|[<-|[<-|[]]]]]]]; vm_compute; reflexivity.
Defined.



(** * The further properties at work *)

Lemma format_size_returns_text_iff_witness :
  (1536 < 1024 ^ 5)%N /\ exists text, format_size 1536 = Ok (Some text).
Proof.
  assert (H : (1536 < 1024 ^ 5)%N) by (vm_compute; reflexivity).
  split; [exact H|]. apply (proj2 (format_size_returns_text_iff 1536) H).
Defined.

Lemma format_size_closed_form_witness :
  (1024 ^ N.of_nat 1 <= 1536)%N
  /\ (1536 < 1024 ^ N.of_nat 2)%N
  /\ format_size 1536 = Ok (Some "1.50 KB").
Proof.
  assert (H1 : (1024 ^ N.of_nat 1 <= 1536)%N) by (vm_compute; discriminate).
  assert (H2 : (1536 < 1024 ^ N.of_nat 2)%N) by (vm_compute; reflexivity).
  split; [exact H1|]. split; [exact H2|].
  rewrite (format_size_closed_form 1536 1); [vm_compute; reflexivity | lia | | exact H2].
  right. exact H1.
Defined.

Lemma format_size_small_witness :
  (512 < 1024)%N /\ format_size 512 = Ok (Some "512.00 B").
Proof.
  assert (H : (512 < 1024)%N) by (vm_compute; reflexivity).
  split; [exact H|]. rewrite (format_size_small 512 H). vm_compute. reflexivity.
Defined.


Lemma compute_file_hash_block_size_zero_witness :
  resolve tree "./a.txt" = Some (File (text "AAAA"))
  /\ compute_file_hash SHA256.sha256 "./a.txt" 0 (world_of tree ".")
     = (Ok (Some "e3b0c44298fc1c149afbf4c8996fb92427ae41e4649b934ca495991b7852b855"),
        mkWorld tree ["."] [EvOpenRead "./a.txt"]).
Proof.
  assert (Hres : resolve tree "./a.txt" = Some (File (text "AAAA")))
    by (vm_compute; reflexivity).
  split; [exact Hres|].
  rewrite (compute_file_hash_block_size_zero SHA256.sha256 "./a.txt"
             (world_of tree ".") (text "AAAA"));
    [rewrite sha256_of_nothing; reflexivity | exact Hres | discriminate | discriminate].
Defined.


Lemma find_duplicate_files_in_visiting_order_witness :
  exists d w',
    find_duplicate_files SHA256.sha256 "." (world_of tree ".") = (Ok d, w')
    /\ In (digest_A, ["./a.txt"; "./d.txt"; "./sub/b.txt"]) d.
Proof.
  destruct (find_duplicate_files_in_visiting_order SHA256.sha256 "." (world_of tree "."))
    as (d & w' & E & H).
  exists d, w'. split; [exact E|]. apply H. split.
  - vm_compute. reflexivity.
  - cbn. lia.
Defined.

Lemma find_duplicate_files_no_repeats_witness :
  NoDup (enumerate tree ".")
  /\ exists d w',
       find_duplicate_files SHA256.sha256 "." (world_of tree ".") = (Ok d, w')
       /\ forall h paths, In (h, paths) d -> NoDup paths.
Proof.
  assert (H : NoDup (enumerate tree ".")).
  { vm_compute. repeat (constructor; [cbn; intuition discriminate|]). constructor. }
  split; [exact H|].
  destruct (find_duplicate_files_no_repeats SHA256.sha256 "." (world_of tree ".") H)
    as (d & w' & E & Hnd & _).
  exists d, w'. split; [exact E | exact Hnd].
Defined.


Lemma calculate_reclaimable_space_ignores_first_witness :
  calculate_reclaimable_space duplicates (world_of tree ".")
  = calculate_reclaimable_space [("", ["no/such/file"; "./d.txt"; "./sub/b.txt"])]
      (world_of tree ".").
Proof.
  apply (calculate_reclaimable_space_ignores_first duplicates
           [("", ["no/such/file"; "./d.txt"; "./sub/b.txt"])] (world_of tree ".")).
  reflexivity.
Defined.

Lemma reclaimable_space_of_scan_witness :
  exists d w1 w2,
    find_duplicate_files SHA256.sha256 "." (world_of tree ".") = (Ok d, w1)
    /\ calculate_reclaimable_space d w1
       = (Ok (fold_right N.add 0
                (map (fun paths =>
                        (N.of_nat (List.length paths) - 1)
                        * size_or_zero tree (hd "" paths))
                   (values d)))%N, w2).
Proof.
  apply (reclaimable_space_of_scan SHA256.sha256 "." (world_of tree ".")).
  intros p q cp cq Hp Hq Hcp Hcq Hh.
  vm_compute in Hp, Hq.
  destruct Hp as [<-|[<-|[<-|[<-|[<-|[<-|[]]]]]]];
    destruct Hq as [<-|[<-|[<-|[<-|[<-|[<-|[]]]]]]];
    vm_compute in Hcp, Hcq; inversion Hcp; inversion Hcq; subst cp cq;
    try reflexivity; vm_compute in Hh; discriminate.
Defined.

Lemma save_results_to_csv_touches_nothing_else_witness :
  components "a.txt" <> components default_filename
  /\ content
       (fs (snd (save_results_to_csv duplicates default_filename (world_of tree "."))))
       "a.txt"
     = content tree "a.txt".
Proof.
  assert (H : components "a.txt" <> components default_filename)
    by (vm_compute; discriminate).
  split; [exact H|].
  apply (proj2 (save_results_to_csv_touches_nothing_else duplicates default_filename
                  (world_of tree ".") "a.txt") H).
Defined.



Lemma main_export_failure_witness :
  write_file Trees.report_is_a_directory default_filename [] = Raise IsADirectoryError
  /\ exists w',
       main SHA256.sha256 (world_of Trees.report_is_a_directory ".")
       = (Raise IsADirectoryError, w')
       /\ fs w' = Trees.report_is_a_directory.
Proof.
  assert (Hopen : write_file Trees.report_is_a_directory default_filename []
                  = Raise IsADirectoryError) by (vm_compute; reflexivity).
  split; [exact Hopen|].
  destruct (main_export_failure SHA256.sha256 (world_of Trees.report_is_a_directory ".")
              "." [] IsADirectoryError eq_refl)
    as (w' & E & Hfs & _).
  - vm_compute. reflexivity.
  - exact Hopen.
  - exists w'. split; [exact E | exact Hfs].
Defined.

Lemma main_nothing_to_visit_witness :
  enumerate Trees.empty (strip ".") = []
  /\ exists w',
       main SHA256.sha256 (world_of Trees.empty ".") = (Ok tt, w')
       /\ content (fs w') default_filename
          = Some (list_byte_of_string
                    ("Hash,Ruta de archivo duplicado" ++ Csv.lineterminator)).
Proof.
  assert (Hnone : enumerate Trees.empty (strip ".") = []) by (vm_compute; reflexivity).
  split; [exact Hnone|].
  assert (Hopen : exists root1, write_file Trees.empty default_filename [] = Ok root1)
    by (vm_compute; eexists; reflexivity).
  destruct Hopen as [root1 Hopen].
  destruct (main_nothing_to_visit SHA256.sha256 (world_of Trees.empty ".") "." [] root1
              eq_refl)
    as (w' & E & Hc & _).
  - vm_compute. reflexivity.
  - exact Hnone.
  - exact Hopen.
  - exists w'. split; [exact E | exact Hc].
Defined.

Lemma main_and_window_agree_witness :
  isdir tree (strip " . ") = true
  /\ fs (snd (main SHA256.sha256 (world_of tree " . ")))
     = fs (snd (analyze_duplicates SHA256.sha256 (Trees.window " . ") (strip " . ")
                  (mkWorld tree [] []))).
Proof.
  assert (Hdir : isdir tree (strip " . ") = true) by (vm_compute; reflexivity).
  split; [exact Hdir|].
  apply (main_and_window_agree SHA256.sha256 (world_of tree " . ") (mkWorld tree [] [])
           (Trees.window " . ") " . " [] eq_refl Hdir eq_refl).
Defined.


Lemma run_analysis_validates_witness :
  isdir tree (strip " sub/c.txt ") = false
  /\ exists self' w',
       run_analysis (Trees.window " sub/c.txt ") (world_of tree "") = (Ok self', w')
       /\ threads_started self' = []
       /\ errors_shown self' = [("Error", "Por favor selecciona un directorio válido.")].
Proof.
  assert (Hdir : isdir tree (strip " sub/c.txt ") = false) by (vm_compute; reflexivity).
  split; [exact Hdir|].
  destruct (run_analysis_validates (Trees.window " sub/c.txt ") (world_of tree ""))
    as (self' & E & _ & Hno).
  destruct (Hno Hdir) as (Ht & _ & He).
  exists self'. eexists. split; [exact E|]. split; [exact Ht | exact He].
Defined.
